(** * GBCE stock exchange core: a shallow embedding and its properties

    The development follows the Python package [gbce]:
    - [gbce/models/trade.py]      the immutable [Trade] record,
    - [gbce/stocks/base.py]       the abstract [Stock] with [pe_ratio],
                                  [record_trade], [volume_weighted_stock_price],
    - [gbce/stocks/common.py]     [CommonStock],
    - [gbce/stocks/preferred.py]  [PreferredStock],
    - [gbce/exchange.py]          [GlobalBeverageCorpExchange].

    Python integers are unbounded and are modelled by [Z].  The arithmetic of
    [decimal.Decimal] is modelled on its finite numbers, in the default
    context the code runs in (28 significant digits, ROUND_HALF_EVEN,
    exponents in [-999999, 999999], traps on InvalidOperation, DivisionByZero
    and Overflow).  Exceptions are values of the type [result]. *)

From Stdlib Require Import ZArith List String Bool Lia Floats.SpecFloat.
From Stdlib Require Import Reals Lra Permutation.
Import ListNotations.

Local Open Scope string_scope.
Local Open Scope list_scope.
Local Open Scope Z_scope.

(** ** Exceptions and results *)

Module Py.

Inductive exn : Type :=
| ValueError
| KeyError
| OverflowError
| InvalidOperation
| DivisionByZero
| DecimalOverflow.

Inductive result (A : Type) : Type :=
| Ok (a : A)
| Raise (e : exn).

Arguments Ok {A} a.
Arguments Raise {A} e.

Definition bind {A B : Type} (r : result A) (k : A -> result B) : result B :=
  match r with
  | Ok a => k a
  | Raise e => Raise e
  end.

Definition is_ok {A : Type} (r : result A) : bool :=
  match r with Ok _ => true | Raise _ => false end.

End Py.

Import Py.

Notation "x <- r ;; k" := (bind r (fun x => k))
  (at level 61, r at next level, right associativity).

(** ** The finite fragment of [decimal.Decimal] *)

Module Dec.

(** A finite Decimal is the triple of [_sign], [_int] and [_exp]; the digit
    string [_int] is kept as the natural number it spells. *)
Record Decimal : Type := mkDec { dsign : bool; dcoef : Z; dexp : Z }.

(** The default context. *)
Definition prec : Z := 28.
Definition Emax : Z := 999999.
Definition Emin : Z := -999999.
Definition Etiny : Z := Emin - prec + 1.
Definition Etop : Z := Emax - prec + 1.

Inductive rounding : Type := ROUND_HALF_EVEN | ROUND_HALF_UP.

(** [len(str(n))] for [n >= 0]. *)
Fixpoint ndigits_aux (fuel : nat) (n : Z) : Z :=
  match fuel with
  | O => 1
  | S f => if n <? 10 then 1 else 1 + ndigits_aux f (n / 10)
  end.

Definition ndigits (n : Z) : Z := ndigits_aux (Z.to_nat (Z.log2 n)) n.

(** [_round_half_up]: the first dropped digit is one of 5..9.  [drop] is the
    number of digits cut from the right end of the coefficient. *)
Definition round_half_up (c drop : Z) : bool :=
  10 ^ drop <=? 2 * (c mod 10 ^ drop).

(** [_round_half_even]: an exact half goes to the even neighbour. *)
Definition round_half_even (c drop : Z) : bool :=
  if (2 * (c mod 10 ^ drop) =? 10 ^ drop) && Z.even (c / 10 ^ drop)
  then false
  else round_half_up c drop.

Definition round_with (r : rounding) (c drop : Z) : bool :=
  match r with
  | ROUND_HALF_EVEN => round_half_even c drop
  | ROUND_HALF_UP => round_half_up c drop
  end.

(** [Decimal._fix]: round to the context precision and keep the exponent in
    range. *)
Definition _fix (d : Decimal) : result Decimal :=
  let s := dsign d in
  let c := dcoef d in
  let e := dexp d in
  if c =? 0 then
    Ok (mkDec s 0 (Z.min (Z.max e Etiny) Emax))
  else
    let exp_min := ndigits c + e - prec in
    if Etop <? exp_min then Raise DecimalOverflow
    else
      let exp_min := Z.max exp_min Etiny in
      if e <? exp_min then
        let digits := ndigits c + e - exp_min in
        let c1 := if digits <? 0 then 1 else c in
        let e1 := if digits <? 0 then exp_min - 1 else e in
        let drop := exp_min - e1 in
        let changed := round_half_even c1 drop in
        let coeff := c1 / 10 ^ drop in
        let coeff' :=
          if changed
          then (if prec <? ndigits (coeff + 1) then (coeff + 1) / 10 else coeff + 1)
          else coeff in
        let exp_min' :=
          if changed && (prec <? ndigits (coeff + 1)) then exp_min + 1 else exp_min in
        if Etop <? exp_min' then Raise DecimalOverflow
        else Ok (mkDec s coeff' exp_min')
      else Ok d.

(** [Decimal(n)] for an [int]: exact. *)
Definition of_int (n : Z) : Decimal := mkDec (n <? 0) (Z.abs n) 0.

(** Trailing zeros are removed from an exact quotient while its exponent is
    below the ideal one; [n] bounds the number of steps. *)
Fixpoint strip_zeros (n : nat) (coeff exp : Z) : Z * Z :=
  match n with
  | O => (coeff, exp)
  | S n' => if coeff mod 10 =? 0 then strip_zeros n' (coeff / 10) (exp + 1)
            else (coeff, exp)
  end.

(** [Decimal.__truediv__]. *)
Definition div (x y : Decimal) : result Decimal :=
  let sign := xorb (dsign x) (dsign y) in
  if dcoef y =? 0 then
    if dcoef x =? 0 then Raise InvalidOperation else Raise DivisionByZero
  else if dcoef x =? 0 then
    _fix (mkDec sign 0 (dexp x - dexp y))
  else
    let shift := ndigits (dcoef y) - ndigits (dcoef x) + prec + 1 in
    let exp := dexp x - dexp y - shift in
    let num := if 0 <=? shift then dcoef x * 10 ^ shift else dcoef x in
    let den := if 0 <=? shift then dcoef y else dcoef y * 10 ^ (- shift) in
    let coeff := num / den in
    let remainder := num mod den in
    if negb (remainder =? 0) then
      _fix (mkDec sign (if coeff mod 5 =? 0 then coeff + 1 else coeff) exp)
    else
      let ideal_exp := dexp x - dexp y in
      let '(coeff', exp') := strip_zeros (Z.to_nat (ideal_exp - exp)) coeff exp in
      _fix (mkDec sign coeff' exp').

(** [Decimal.__mul__]. *)
Definition mul (x y : Decimal) : result Decimal :=
  _fix (mkDec (xorb (dsign x) (dsign y)) (dcoef x * dcoef y) (dexp x + dexp y)).

(** [Decimal._rescale]. *)
Definition rescale (d : Decimal) (exp : Z) (r : rounding) : Decimal :=
  let s := dsign d in
  let c := dcoef d in
  let e := dexp d in
  if c =? 0 then mkDec s 0 exp
  else if exp <=? e then mkDec s (c * 10 ^ (e - exp)) exp
  else
    let digits := ndigits c + e - exp in
    let c1 := if digits <? 0 then 1 else c in
    let e1 := if digits <? 0 then exp - 1 else e in
    let drop := exp - e1 in
    let coeff := c1 / 10 ^ drop in
    mkDec s (if round_with r c1 drop then coeff + 1 else coeff) exp.

(** [Decimal.adjusted]. *)
Definition adjusted (d : Decimal) : Z := dexp d + ndigits (dcoef d) - 1.

(** [Decimal.quantize(Decimal(1E exp), rounding)]. *)
Definition quantize (d : Decimal) (exp : Z) (r : rounding) : result Decimal :=
  if negb ((Etiny <=? exp) && (exp <=? Emax)) then Raise InvalidOperation
  else if dcoef d =? 0 then _fix (mkDec (dsign d) 0 exp)
  else if Emax <? adjusted d then Raise InvalidOperation
  else if prec <? adjusted d - exp + 1 then Raise InvalidOperation
  else
    let ans := rescale d exp r in
    if Emax <? adjusted ans then Raise InvalidOperation
    else if prec <? ndigits (dcoef ans) then Raise InvalidOperation
    else _fix ans.

(** [Decimal.__bool__]: a finite Decimal is falsy exactly when it is zero. *)
Definition truthy (d : Decimal) : bool := negb (dcoef d =? 0).

(** The real number a Decimal denotes. *)
Definition value (d : Decimal) : R :=
  (if dsign d then -1 else 1) * IZR (dcoef d) * powerRZ 10 (dexp d).

(** [Decimal(f)] for a [float]: the exact binary value, written in decimal.
    [float.as_integer_ratio] gives [n / 2^k] in lowest terms, and the
    coefficient is [n * 5^k] with exponent [-k]. *)
Fixpoint reduce_ratio (m : positive) (k : nat) : positive * nat :=
  match m, k with
  | xO m', S k' => reduce_ratio m' k'
  | _, _ => (m, k)
  end.

Definition as_integer_ratio (m : positive) (e : Z) : Z * Z :=
  if 0 <=? e then (Zpos m * 2 ^ e, 0)
  else let '(n, k) := reduce_ratio m (Z.to_nat (- e)) in (Zpos n, Z.of_nat k).

(** Infinities and NaN are outside the finite fragment: [None]. *)
Definition of_float (f : spec_float) : option Decimal :=
  match f with
  | S754_zero s => Some (mkDec s 0 0)
  | S754_finite s m e =>
      let '(n, k) := as_integer_ratio m e in Some (mkDec s (n * 5 ^ k) (- k))
  | S754_infinity _ | S754_nan => None
  end.

End Dec.

Import Dec.

(** ** Dates and times

    A naive [datetime] is the number of microseconds since
    0001-01-01T00:00:00, between [datetime.min] and [datetime.max]. *)

Module Datetime.

Definition datetime : Type := Z.

Definition max : Z := 3652059 * 86400000000 - 1.

(** [now - timedelta(minutes=m)]: an OverflowError when the date leaves the
    years 1..9999 (or when the timedelta itself is out of range, which is
    wider). *)
Definition minus_minutes (now : datetime) (m : Z) : result datetime :=
  let c := now - m * 60000000 in
  if (0 <=? c) && (c <=? max) then Ok c else Raise OverflowError.

End Datetime.

(** ** Floats

    A Python [float] is a binary64 number, a [spec_float] of precision 53. *)

Definition float : Type := spec_float.
Definition float_zero : float := S754_zero false.
Definition float_one : float := S754_finite false 4503599627370496 (-52).

(** [str(n)] for an [int], which the f-string field [{quantity}] calls:
    CPython refuses an integer of more than [sys.get_int_max_str_digits()]
    decimal digits, 4300 unless reconfigured, with a ValueError. *)
Definition int_max_str_digits : Z := 4300.

Definition str_int_raises (n : Z) : bool :=
  10 ^ int_max_str_digits <=? Z.abs n.

(** [int / int] raises OverflowError when the correctly rounded quotient is
    beyond the largest float; for positive operands that is
    [a / b >= 2^1024 - 2^970]. *)
Definition int_truediv_overflows (a b : Z) : bool :=
  (2 ^ 1024 - 2 ^ 970) * b <=? a.

(** ** Trades: [gbce/models/trade.py] *)

Inductive TradeIndicator : Type := BUY | SELL.

Record Trade : Type := mkTrade {
  timestamp : Datetime.datetime;
  quantity : Z;
  indicator : TradeIndicator;
  price_pennies : Z
}.

(** ** Stocks: [gbce/stocks/base.py], [common.py], [preferred.py] *)

Inductive StockClass : Type :=
| CommonStock
| PreferredStock (_fixed_dividend_pct : float).

Record Stock : Type := mkStock {
  symbol : string;
  _par_value_pennies : Z;
  last_dividend_pennies : Z;
  class : StockClass;
  _trades : list Trade
}.

(** [len(s)] for a [str].  A Rocq string stands for the UTF-8 encoding of
    the Python string, and [len] counts code points: every byte but the
    continuation bytes [10xxxxxx] starts one.  On ASCII text it is the number
    of bytes; the euro sign, three bytes long, counts once. *)
Definition is_continuation (c : Ascii.ascii) : bool :=
  match c with
  | Ascii.Ascii _ _ _ _ _ _ false true => true
  | _ => false
  end.

Fixpoint len (s : string) : nat :=
  match s with
  | EmptyString => O
  | String c s' => if is_continuation c then len s' else S (len s')
  end.

(** [Stock.__init__]: the checks of the base class.  [not symbol] is
    [len(symbol) == 0]. *)
Definition Stock_init (symbol : string) (par_value_pennies : Z) : result unit :=
  if (len symbol =? 0)%nat || (10 <? len symbol)%nat
  then Raise ValueError
  else if par_value_pennies <=? 0 then Raise ValueError
  else Ok tt.

(** [CommonStock.__init__]. *)
Definition CommonStock_init (symbol : string) (last_dividend_pennies par_value_pennies : Z)
  : result Stock :=
  _ <- Stock_init symbol par_value_pennies ;;
  if last_dividend_pennies <? 0 then Raise ValueError
  else Ok (mkStock symbol par_value_pennies last_dividend_pennies CommonStock []).

(** [PreferredStock.__init__]: [not 0 < fixed_dividend_pct <= 1.0]. *)
Definition PreferredStock_init (symbol : string) (last_dividend_pennies : Z)
    (fixed_dividend_pct : float) (par_value_pennies : Z) : result Stock :=
  _ <- Stock_init symbol par_value_pennies ;;
  if negb (SFltb float_zero fixed_dividend_pct && SFleb fixed_dividend_pct float_one)
  then Raise ValueError
  else Ok (mkStock symbol par_value_pennies last_dividend_pennies
             (PreferredStock fixed_dividend_pct) []).

Definition quantize2 (r : result Decimal) : result Decimal :=
  d <- r ;; quantize d (-2) ROUND_HALF_UP.

(** [CommonStock.dividend_yield] and [PreferredStock.dividend_yield].  The
    constructor lets no infinity or NaN in as a rate; on those the product
    is not a finite Decimal, reported here as InvalidOperation. *)
Definition dividend_yield (s : Stock) (price_pennies : Z) : result Decimal :=
  match class s with
  | CommonStock =>
      if price_pennies <=? 0 then Ok (mkDec false 0 (-2))
      else
        quantize2 (x <- mul (of_int (last_dividend_pennies s)) (of_int 100) ;;
                   div x (of_int price_pennies))
  | PreferredStock pct =>
      if price_pennies <=? 0 then Ok (mkDec false 0 (-2))
      else
        match of_float pct with
        | None => Raise InvalidOperation
        | Some p =>
            quantize2 (fixed_div <- mul p (of_int (_par_value_pennies s)) ;;
                       x <- mul fixed_div (of_int 100) ;;
                       div x (of_int price_pennies))
        end
  end.

(** [Stock.pe_ratio]. *)
Definition pe_ratio (s : Stock) (price_pennies : Z) : result (option Decimal) :=
  if (price_pennies <=? 0) || (last_dividend_pennies s =? 0) then Ok None
  else
    d <- div (of_int price_pennies) (of_int (last_dividend_pennies s)) ;;
    Ok (Some d).

(** [Stock.record_trade], with the clock reading [now] of [datetime.now()].
    The stock after the call is returned next to the outcome.  Once the
    trade is appended, the log line formats [quantity] with [str], then the
    symbol, then [price_pennies/100] as a float. *)
Definition record_trade (now : Datetime.datetime) (s : Stock)
    (quantity : Z) (indicator : TradeIndicator) (price_pennies : Z)
  : result unit * Stock :=
  if (quantity <=? 0) || (price_pennies <=? 0) then (Raise ValueError, s)
  else
    let trade := mkTrade now quantity indicator price_pennies in
    let s' := mkStock (symbol s) (_par_value_pennies s) (last_dividend_pennies s)
                (class s) (_trades s ++ [trade]) in
    if str_int_raises quantity then (Raise ValueError, s')
    else if int_truediv_overflows price_pennies 100 then (Raise OverflowError, s')
    else (Ok tt, s').

Definition sum_Z (l : list Z) : Z := fold_left Z.add l 0.

Definition recent_trades (cutoff : Datetime.datetime) (trades : list Trade) : list Trade :=
  filter (fun t => cutoff <=? timestamp t) trades.

(** The arithmetic of [Stock.volume_weighted_stock_price] on the list
    [recent] of the trades in the window. *)
Definition vwap_of_recent (recent : list Trade) : result (option Decimal) :=
  match recent with
  | [] => Ok None
  | _ =>
      let total_qty := sum_Z (map quantity recent) in
      if total_qty =? 0 then Ok None
      else
        let weighted := sum_Z (map (fun t => quantity t * price_pennies t) recent) in
        x <- div (of_int weighted) (of_int total_qty) ;;
        vwap <- div x (of_int 100) ;;
        q <- quantize vwap (-2) ROUND_HALF_UP ;;
        Ok (Some q)
  end.

(** [Stock.volume_weighted_stock_price], with the clock reading [now] of
    [datetime.now()]. *)
Definition volume_weighted_stock_price (now : Datetime.datetime) (s : Stock)
    (minutes_back : Z) : result (option Decimal) :=
  cutoff <- Datetime.minus_minutes now minutes_back ;;
  vwap_of_recent (recent_trades cutoff (_trades s)).

(** ** The exchange: [gbce/exchange.py] *)

(** [_stocks] is a dict: keys are unique and kept in insertion order. *)
Record GlobalBeverageCorpExchange : Type := mkExchange {
  _stocks : list (string * Stock)
}.

Definition Exchange_init : GlobalBeverageCorpExchange := mkExchange [].

Fixpoint dict_get (d : list (string * Stock)) (k : string) : option Stock :=
  match d with
  | [] => None
  | (k', v) :: d' => if String.eqb k k' then Some v else dict_get d' k
  end.

Definition dict_contains (d : list (string * Stock)) (k : string) : bool :=
  match dict_get d k with Some _ => true | None => false end.

(** [d[k] = v]: an existing key keeps its place, a new one goes last. *)
Fixpoint dict_set (d : list (string * Stock)) (k : string) (v : Stock)
  : list (string * Stock) :=
  match d with
  | [] => [(k, v)]
  | (k', v') :: d' =>
      if String.eqb k k' then (k', v) :: d' else (k', v') :: dict_set d' k v
  end.

Definition create_common_stock (ex : GlobalBeverageCorpExchange) (symbol : string)
    (last_dividend par_value : Z) : result Stock * GlobalBeverageCorpExchange :=
  if dict_contains (_stocks ex) symbol then (Raise ValueError, ex)
  else
    match CommonStock_init symbol last_dividend par_value with
    | Raise e => (Raise e, ex)
    | Ok stock => (Ok stock, mkExchange (dict_set (_stocks ex) symbol stock))
    end.

Definition create_preferred_stock (ex : GlobalBeverageCorpExchange) (symbol : string)
    (last_dividend : Z) (fixed_dividend_pct : float) (par_value : Z)
  : result Stock * GlobalBeverageCorpExchange :=
  if dict_contains (_stocks ex) symbol then (Raise ValueError, ex)
  else
    match PreferredStock_init symbol last_dividend fixed_dividend_pct par_value with
    | Raise e => (Raise e, ex)
    | Ok stock => (Ok stock, mkExchange (dict_set (_stocks ex) symbol stock))
    end.

Definition get_stock (ex : GlobalBeverageCorpExchange) (symbol : string) : result Stock :=
  match dict_get (_stocks ex) symbol with
  | None => Raise KeyError
  | Some s => Ok s
  end.

(** The float operations of the interpreter and of the C library that the
    index goes through: [float(Decimal)], [math.log], [math.exp], the builtin
    [sum] on floats, [float / int] and [Decimal(str(float))]. *)
Record FloatRuntime : Type := mkFloatRuntime {
  float_of_Decimal : Decimal -> float;
  math_log : float -> result float;
  math_exp : float -> result float;
  float_sum : list float -> float;
  float_div_int : float -> Z -> float;
  Decimal_of_str : float -> result Decimal
}.

Fixpoint mapM {A B : Type} (f : A -> result B) (l : list A) : result (list B) :=
  match l with
  | [] => Ok []
  | a :: l' => b <- f a ;; bs <- mapM f l' ;; Ok (b :: bs)
  end.

(** The VWSP of every registered stock, in registry order; the [i]-th call
    reads the clock anew. *)
Fixpoint all_vwsp (clock : nat -> Datetime.datetime) (i : nat) (d : list (string * Stock))
  : result (list (option Decimal)) :=
  match d with
  | [] => Ok []
  | (_, stock) :: d' =>
      v <- volume_weighted_stock_price (clock i) stock 5 ;;
      vs <- all_vwsp clock (S i) d' ;;
      Ok (v :: vs)
  end.

(** [float(vwsp or 0)]. *)
Definition float_or_0 (rt : FloatRuntime) (v : option Decimal) : float :=
  match v with
  | Some d => if truthy d then float_of_Decimal rt d else float_zero
  | None => float_zero
  end.

(** [GlobalBeverageCorpExchange.gbce_all_share_index]. *)
Definition gbce_all_share_index (rt : FloatRuntime) (clock : nat -> Datetime.datetime)
    (ex : GlobalBeverageCorpExchange) : result (option Decimal) :=
  vs <- all_vwsp clock 0 (_stocks ex) ;;
  let vwsps := map (float_or_0 rt) vs in
  let vwsps := filter (fun v => SFltb float_zero v) vwsps in
  match vwsps with
  | [] => Ok None
  | _ =>
      logs <- mapM (math_log rt) vwsps ;;
      let log_sum := float_sum rt logs in
      g <- math_exp rt (float_div_int rt log_sum (Z.of_nat (List.length vwsps))) ;;
      d <- Decimal_of_str rt g ;;
      q <- quantize d (-2) ROUND_HALF_UP ;;
      Ok (Some q)
  end.

(** [GlobalBeverageCorpExchange.stock_symbols]: the keys of the registry, in
    insertion order. *)
Definition stock_symbols (ex : GlobalBeverageCorpExchange) : list string :=
  map fst (_stocks ex).

(** The caller's pattern of [gbce/__main__.py]:
    [exchange.get_stock(symbol).record_trade(...)].  The registry holds the
    stock object itself, so the recorded trade shows in the exchange. *)
Definition record_trade_on (ex : GlobalBeverageCorpExchange) (symbol : string)
    (now : Datetime.datetime) (quantity : Z) (indicator : TradeIndicator)
    (price_pennies : Z) : result unit * GlobalBeverageCorpExchange :=
  match get_stock ex symbol with
  | Raise e => (Raise e, ex)
  | Ok s =>
      let '(r, s') := record_trade now s quantity indicator price_pennies in
      (r, mkExchange (dict_set (_stocks ex) symbol s'))
  end.

(** ** The single-file variant: [stock_market.py]

    The module repeats the package in one file.  The functions that differ
    from the package are modelled here; [pe_ratio],
    [volume_weighted_stock_price], [CommonStock.__init__] and the exchange's
    factory and lookup methods are the same code. *)

Module StockMarket.

(** [Stock._validate_trade_params]. *)
Definition _validate_trade_params (quantity : Z) (indicator : TradeIndicator)
    (price_pennies : Z) : result unit :=
  if quantity <=? 0 then Raise ValueError
  else if price_pennies <=? 0 then Raise ValueError
  else Ok tt.

(** [Stock.record_trade]: the log line formats [indicator.value], then
    [quantity], the symbol and [price_pennies/100]. *)
Definition record_trade (now : Datetime.datetime) (s : Stock)
    (quantity : Z) (indicator : TradeIndicator) (price_pennies : Z)
  : result unit * Stock :=
  match _validate_trade_params quantity indicator price_pennies with
  | Raise e => (Raise e, s)
  | Ok _ =>
      let trade := mkTrade now quantity indicator price_pennies in
      let s' := mkStock (symbol s) (_par_value_pennies s) (last_dividend_pennies s)
                  (class s) (_trades s ++ [trade]) in
      if str_int_raises quantity then (Raise ValueError, s')
      else if int_truediv_overflows price_pennies 100 then (Raise OverflowError, s')
      else (Ok tt, s')
  end.

(** [Stock.trade_count]. *)
Definition trade_count (s : Stock) : Z := Z.of_nat (List.length (_trades s)).

(** [PreferredStock.__init__]:
    [fixed_dividend_percentage <= 0 or fixed_dividend_percentage > 1.0]. *)
Definition PreferredStock_init (symbol : string) (last_dividend_pennies : Z)
    (fixed_dividend_percentage : float) (par_value_pennies : Z) : result Stock :=
  _ <- Stock_init symbol par_value_pennies ;;
  if SFleb fixed_dividend_percentage float_zero
     || SFltb float_one fixed_dividend_percentage
  then Raise ValueError
  else Ok (mkStock symbol par_value_pennies last_dividend_pennies
             (PreferredStock fixed_dividend_percentage) []).

(** The floats of the prices that are not [None]. *)
Fixpoint defined_floats (rt : FloatRuntime) (vs : list (option Decimal)) : list float :=
  match vs with
  | [] => []
  | Some d :: vs' => float_of_Decimal rt d :: defined_floats rt vs'
  | None :: vs' => defined_floats rt vs'
  end.

(** [GlobalBeverageCorpExchange.gbce_all_share_index]: every price that is
    not [None] goes into the mean. *)
Definition gbce_all_share_index (rt : FloatRuntime) (clock : nat -> Datetime.datetime)
    (ex : GlobalBeverageCorpExchange) : result (option Decimal) :=
  vs <- all_vwsp clock 0 (_stocks ex) ;;
  let vwsps := defined_floats rt vs in
  match vwsps with
  | [] => Ok None
  | _ =>
      logs <- mapM (math_log rt) vwsps ;;
      let log_sum := float_sum rt logs in
      let geo_mean := math_exp rt (float_div_int rt log_sum (Z.of_nat (List.length vwsps))) in
      g <- geo_mean ;;
      d <- Decimal_of_str rt g ;;
      q <- quantize d (-2) ROUND_HALF_UP ;;
      Ok (Some q)
  end.

End StockMarket.

(** ** What the program can build *)

(** The stocks a caller can hold: built by a constructor, then traded. *)
Inductive reachable_stock : Stock -> Prop :=
| reach_common (sym : string) (ld par : Z) (s : Stock) :
    CommonStock_init sym ld par = Ok s -> reachable_stock s
| reach_preferred (sym : string) (ld : Z) (pct : float) (par : Z) (s : Stock) :
    PreferredStock_init sym ld pct par = Ok s -> reachable_stock s
| reach_trade (now : Datetime.datetime) (s : Stock) (q : Z) (i : TradeIndicator) (p : Z) :
    reachable_stock s -> reachable_stock (snd (record_trade now s q i p)).

(** The exchanges a caller can hold: created empty, filled by the factory
    methods, their stocks traded. *)
Inductive reachable_exchange : GlobalBeverageCorpExchange -> Prop :=
| reach_init : reachable_exchange Exchange_init
| reach_create_common (ex : GlobalBeverageCorpExchange) (k : string) (ld par : Z) :
    reachable_exchange ex ->
    reachable_exchange (snd (create_common_stock ex k ld par))
| reach_create_preferred (ex : GlobalBeverageCorpExchange) (k : string) (ld : Z)
    (pct : float) (par : Z) :
    reachable_exchange ex ->
    reachable_exchange (snd (create_preferred_stock ex k ld pct par))
| reach_record (ex : GlobalBeverageCorpExchange) (k : string) (now : Datetime.datetime)
    (q : Z) (i : TradeIndicator) (p : Z) :
    reachable_exchange ex ->
    reachable_exchange (snd (record_trade_on ex k now q i p)).

(** ** Sample data *)

(** Sample data of the demonstration in [gbce/__main__.py]: the rate 0.02 is
    the binary64 number 5764607523034235 * 2^-58. *)
Definition rate_0_02 : float := S754_finite false 5764607523034235 (-58).

Definition with_trades (s : Stock) (l : list Trade) : Stock :=
  mkStock (symbol s) (_par_value_pennies s) (last_dividend_pennies s) (class s) l.

(** A clock reading in the year 1997. *)
Definition sample_now : Datetime.datetime := 63000000000000000.

Definition TEA : Stock := mkStock "TEA" 10000 0 CommonStock [].

(** The euro sign U+20AC, three bytes in UTF-8, and a symbol of six of them. *)
Definition euro : string :=
  String (Ascii.ascii_of_nat 226)
    (String (Ascii.ascii_of_nat 130) (String (Ascii.ascii_of_nat 172) EmptyString)).

Definition six_euros : string := euro ++ euro ++ euro ++ euro ++ euro ++ euro.

Definition TEA_traded : Stock :=
  snd (record_trade (sample_now + 2000)
         (snd (record_trade (sample_now + 1000) TEA 1000 BUY 9550))
         2000 SELL 10230).

Definition appended (now : Datetime.datetime) (s : Stock) (q : Z) (i : TradeIndicator)
    (p : Z) : Stock :=
  with_trades s (_trades s ++ [mkTrade now q i p]).

(** The trades a window of [w] minutes ending at [now] is meant to hold. *)
Definition in_window (now : Datetime.datetime) (w : Z) (t : Trade) : bool :=
  now - w * 60000000 <=? timestamp t.

(** C8 as stated: for every stock and window length the price is computed
    from exactly the trades with [timestamp >= now - w]. *)
Definition window_claim : Prop :=
  forall (now : Datetime.datetime) (s : Stock) (w : Z),
    0 <= now <= Datetime.max ->
    volume_weighted_stock_price now s w
    = vwap_of_recent (filter (in_window now w) (_trades s)).

(** ** Notions the properties are stated with *)

(** The ledger invariant: every trade has a positive quantity and price. *)
Definition ledger_ok (l : list Trade) : Prop :=
  Forall (fun t => 0 < quantity t /\ 0 < price_pennies t) l.

(** [sum(t.quantity for t in l)] and [sum(t.quantity * t.price_pennies for t in l)]. *)
Definition total_quantity (l : list Trade) : Z := sum_Z (map quantity l).
Definition weighted_sum (l : list Trade) : Z :=
  sum_Z (map (fun t => quantity t * price_pennies t) l).

(** What a price is computed from: the indicator is not part of it. *)
Definition trade_key (t : Trade) : Z * Z * Z :=
  (timestamp t, quantity t, price_pennies t).

(** [n / d] rounded half-up to an integer, for [n >= 0] and [d > 0]. *)
Definition half_up_div (n d : Z) : Z := (2 * n + d) / (2 * d).

(** The coefficient of [c * 10^e] rounded half-up to the exponent [t]. *)
Definition half_up_coef (c e t : Z) : Z :=
  if t <=? e then c * 10 ^ (e - t)
  else (2 * c + 10 ^ (t - e)) / (2 * 10 ^ (t - e)).

(** [c * 10^e >= 10^k], for a coefficient [c > 0]. *)
Definition ge_pow10 (c e k : Z) : Prop := k <= e \/ 10 ^ (k - e) <= c.

Definition bump (b : bool) : Z := if b then 1 else 0.

(** The scaling [Decimal.__truediv__] applies to its operands' coefficients
    [a] and [b]: the quotient of [div_num] by [div_den] has 29 or 30 digits. *)
Definition div_shift (a b : Z) : Z := ndigits b - ndigits a + prec + 1.
Definition div_num (a b : Z) : Z :=
  if 0 <=? div_shift a b then a * 10 ^ div_shift a b else a.
Definition div_den (a b : Z) : Z :=
  if 0 <=? div_shift a b then b else b * 10 ^ (- div_shift a b).

(** The dyadic value [m * 2^e] of a binary64 number is at most 1; its
    exponent is at least -1074. *)
Definition at_most_one (m : positive) (e : Z) : Prop :=
  Zpos m * 2 ^ (e + 1074) <= 2 ^ 1074.

(** What the index needs of [float(Decimal)]: a positive amount with two
    fractional digits becomes a positive float. *)
Definition float_positive (rt : FloatRuntime) : Prop :=
  forall c, 0 < c ->
    SFltb float_zero (float_of_Decimal rt (mkDec false c (-2))) = true.

(** A runtime that keeps only the sign of a number.  It is no model of the
    C library; it shows that [float_positive] can be met. *)
Definition sign_runtime : FloatRuntime :=
  mkFloatRuntime
    (fun d => if dcoef d =? 0 then S754_zero (dsign d) else S754_finite (dsign d) 1 0)
    (fun x => Ok x)
    (fun x => Ok x)
    (fun _ => float_zero)
    (fun x _ => x)
    (fun _ => Ok (mkDec false 0 0)).

(** The registry of an exchange is well formed: distinct symbols, and every
    entry is a stock the program can build, filed under its own symbol. *)
Definition registry_ok (ex : GlobalBeverageCorpExchange) : Prop :=
  NoDup (stock_symbols ex) /\
  forall k s, In (k, s) (_stocks ex) -> symbol s = k /\ reachable_stock s.

(** A price as [volume_weighted_stock_price] returns it: absent, or positive
    with two fractional digits. *)
Definition a_price (v : option Decimal) : Prop :=
  forall x, v = Some x -> dsign x = false /\ dexp x = -2 /\ 1 <= dcoef x.

(** An exchange with a common and a preferred stock and one trade. *)
Definition sample_exchange : GlobalBeverageCorpExchange :=
  snd (record_trade_on
         (snd (create_preferred_stock
                 (snd (create_common_stock Exchange_init "TEA" 0 10000))
                 "GIN" 8 rate_0_02 10000))
         "TEA" (sample_now + 1000) 1000 BUY 9550).
(** ** Evaluations *)

Example ndigits_examples :
  ndigits 0 = 1 /\ ndigits 9 = 1 /\ ndigits 10 = 2 /\ ndigits 99 = 2 /\
  ndigits 100 = 3 /\ ndigits (10 ^ 28) = 29 /\ ndigits (10 ^ 28 - 1) = 28.
Proof. vm_compute. repeat split. Qed.

Example div_one_third :
  div (of_int 1) (of_int 3) = Ok (mkDec false 3333333333333333333333333333 (-28)).
Proof. vm_compute. reflexivity. Qed.

Example div_two_thirds :
  div (of_int 2) (of_int 3) = Ok (mkDec false 6666666666666666666666666667 (-28)).
Proof. vm_compute. reflexivity. Qed.

(** Characters, not bytes, are counted: six euro signs make a symbol of 18
    bytes that the constructor accepts, eleven letters one that it rejects. *)
Example len_examples :
  len "TEA" = 3%nat /\ len six_euros = 6%nat /\ String.length six_euros = 18%nat /\
  CommonStock_init six_euros 0 10000 = Ok (mkStock six_euros 10000 0 CommonStock []) /\
  CommonStock_init "ABCDEFGHIJK" 0 10000 = Raise ValueError.
Proof. vm_compute. repeat split. Qed.

(** ** Construction of stocks *)

Section Construction.

Variables (sym : string) (ld par : Z).

Lemma Stock_init_ok :
  Stock_init sym par = Ok tt <->
  (1 <= len sym <= 10)%nat /\ 0 < par.
Proof.
  unfold Stock_init.
  destruct (Nat.eqb_spec (len sym) 0);
    destruct (Nat.ltb_spec 10 (len sym));
    destruct (Z.leb_spec par 0); simpl;
    split; intros Hyp; try discriminate; try reflexivity; lia.
Qed.

Lemma Stock_init_cases :
  Stock_init sym par = Ok tt \/ Stock_init sym par = Raise ValueError.
Proof.
  unfold Stock_init.
  destruct (_ || _); [now right|]. destruct (par <=? 0); [now right|now left].
Qed.

(** A [CommonStock] is built exactly from a symbol of 1..10 characters, a
    positive par value and a non-negative last dividend; every other input
    raises ValueError. *)
Lemma CommonStock_init_spec :
  ((1 <= len sym <= 10)%nat /\ 0 < par /\ 0 <= ld ->
   CommonStock_init sym ld par = Ok (mkStock sym par ld CommonStock [])) /\
  (~ ((1 <= len sym <= 10)%nat /\ 0 < par /\ 0 <= ld) ->
   CommonStock_init sym ld par = Raise ValueError).
Proof.
  unfold CommonStock_init. split; intros H.
  - destruct H as (Hs & Hp & Hl).
    assert (E : Stock_init sym par = Ok tt) by (apply Stock_init_ok; auto).
    rewrite E. simpl. destruct (ld <? 0) eqn:El; [apply Z.ltb_lt in El; lia|reflexivity].
  - destruct Stock_init_cases as [E|E]; rewrite E; simpl; [|reflexivity].
    apply Stock_init_ok in E. destruct (ld <? 0) eqn:El; [reflexivity|].
    apply Z.ltb_ge in El. exfalso. apply H. tauto.
Qed.

(** A [PreferredStock] is built from a symbol of 1..10 characters, a positive
    par value and a rate with [0 < rate <= 1.0]; its last dividend is not
    looked at. *)
Lemma PreferredStock_init_spec (pct : float) :
  let rate_ok := SFltb float_zero pct && SFleb pct float_one in
  ((1 <= len sym <= 10)%nat /\ 0 < par /\ rate_ok = true ->
   PreferredStock_init sym ld pct par = Ok (mkStock sym par ld (PreferredStock pct) [])) /\
  (~ ((1 <= len sym <= 10)%nat /\ 0 < par /\ rate_ok = true) ->
   PreferredStock_init sym ld pct par = Raise ValueError).
Proof.
  unfold PreferredStock_init. cbv zeta. split; intros H.
  - destruct H as (Hs & Hp & Hl).
    assert (E : Stock_init sym par = Ok tt) by (apply Stock_init_ok; auto).
    rewrite E. simpl. rewrite Hl. reflexivity.
  - destruct Stock_init_cases as [E|E]; rewrite E; simpl; [|reflexivity].
    apply Stock_init_ok in E.
    destruct (SFltb float_zero pct && SFleb pct float_one) eqn:El; [|reflexivity].
    exfalso. apply H. tauto.
Qed.

End Construction.

(** C3 (the code departs from the claim).  Every constructed stock is claimed
    to have a non-negative last dividend.  [CommonStock.__init__] rejects a
    negative one, [PreferredStock.__init__] stores it unchecked: the
    preferred stock "GIN" is built with a last dividend of -8 pennies. *)
Theorem PreferredStock_init_negative_dividend :
  exists s, PreferredStock_init "GIN" (-8) rate_0_02 10000 = Ok s /\
            last_dividend_pennies s = -8 /\
            CommonStock_init "GIN" (-8) 10000 = Raise ValueError.
Proof.
  eexists. split; [reflexivity|]. split; reflexivity.
Qed.

(** ** Recording trades *)

(** Below the limit of [str] and the float range the log line is harmless,
    and [record_trade] fails exactly on a non-positive quantity or price,
    leaving the ledger as it was; otherwise it appends the one trade. *)
Lemma record_trade_spec (now : Datetime.datetime) (s : Stock) (q : Z)
    (i : TradeIndicator) (p : Z) :
  q < 10 ^ 4300 -> p < 100 * (2 ^ 1024 - 2 ^ 970) ->
  (q <= 0 \/ p <= 0 -> record_trade now s q i p = (Raise ValueError, s)) /\
  (0 < q /\ 0 < p -> record_trade now s q i p = (Ok tt, appended now s q i p)).
Proof.
  unfold record_trade, appended, with_trades, int_truediv_overflows,
    str_int_raises, int_max_str_digits.
  set (L := 10 ^ 4300). rewrite (Z.mul_comm (2 ^ 1024 - 2 ^ 970) 100).
  set (B := 100 * (2 ^ 1024 - 2 ^ 970)). clearbody L B.
  intros Hq4 Hp. split; intros H.
  - destruct (Z.leb_spec q 0) as [Hq|Hq]; [reflexivity|].
    destruct (Z.leb_spec p 0) as [Hp0|Hp0]; [reflexivity|]. lia.
  - destruct H as [Hq Hp'].
    destruct (Z.leb_spec q 0) as [Hq0|_]; [lia|].
    destruct (Z.leb_spec p 0) as [Hp0|_]; [lia|]. cbn [orb].
    destruct (Z.leb_spec L (Z.abs q)) as [Hs|_]; [lia|].
    destruct (Z.leb_spec B p) as [Ho|_]; [lia|reflexivity].
Qed.

(** C6 (the code departs from the claim).  A failing [record_trade] is claimed
    to leave the ledger unchanged, and to fail only on a non-positive
    quantity or price.  With a price of 10^400 pennies both checks pass, the
    trade is appended, and then the log line's [price_pennies/100] raises
    OverflowError: the call fails with the trade already in the ledger. *)
Theorem record_trade_fails_after_append (now : Datetime.datetime) (s : Stock) :
  record_trade now s 1 BUY (10 ^ 400)
  = (Raise OverflowError, appended now s 1 BUY (10 ^ 400)) /\
  _trades (snd (record_trade now s 1 BUY (10 ^ 400))) <> _trades s.
Proof.
  assert (E : record_trade now s 1 BUY (10 ^ 400)
              = (Raise OverflowError, appended now s 1 BUY (10 ^ 400))).
  { unfold record_trade, appended, with_trades.
    replace ((1 <=? 0) || (10 ^ 400 <=? 0)) with false by (vm_compute; reflexivity).
    replace (str_int_raises 1) with false by (vm_compute; reflexivity).
    replace (int_truediv_overflows (10 ^ 400) 100) with true by (vm_compute; reflexivity).
    reflexivity. }
  split; [exact E|]. rewrite E. simpl. intros H.
  apply (f_equal (@List.length Trade)) in H. rewrite length_app in H. simpl in H. lia.
Qed.

(** ** The registry *)

Lemma dict_get_set_same (d : list (string * Stock)) (k : string) (v : Stock) :
  dict_get (dict_set d k v) k = Some v.
Proof.
  induction d as [|[k' v'] d IH]; simpl.
  - now rewrite String.eqb_refl.
  - destruct (String.eqb k k') eqn:E; simpl; rewrite E; [reflexivity|exact IH].
Qed.

Lemma dict_set_fresh (d : list (string * Stock)) (k : string) (v : Stock) :
  dict_get d k = None -> dict_set d k v = d ++ [(k, v)].
Proof.
  induction d as [|[k' v'] d IH]; simpl; intros H; [reflexivity|].
  destruct (String.eqb k k'); [discriminate|]. now rewrite IH.
Qed.

(** Registering a stock and looking it up returns that stock. *)
Lemma create_common_stock_get (ex ex' : GlobalBeverageCorpExchange) (k : string)
    (ld par : Z) (s : Stock) :
  create_common_stock ex k ld par = (Ok s, ex') -> get_stock ex' k = Ok s.
Proof.
  unfold create_common_stock, get_stock.
  destruct (dict_contains _ _); [discriminate|].
  destruct (CommonStock_init k ld par); [|discriminate].
  intros H. injection H as <- <-. simpl. now rewrite dict_get_set_same.
Qed.

(** C7.  Creating a stock, common or preferred, under a symbol that is
    already registered raises the duplicate-symbol error (a ValueError) and
    leaves the exchange as it was: [get_stock] still returns the stock
    registered first, unmodified. *)
Theorem create_duplicate_symbol (ex : GlobalBeverageCorpExchange) (k : string)
    (s0 : Stock) (ld par : Z) (pct : float) :
  get_stock ex k = Ok s0 ->
  create_common_stock ex k ld par = (Raise ValueError, ex) /\
  create_preferred_stock ex k ld pct par = (Raise ValueError, ex) /\
  get_stock (snd (create_common_stock ex k ld par)) k = Ok s0 /\
  get_stock (snd (create_preferred_stock ex k ld pct par)) k = Ok s0.
Proof.
  intros H.
  assert (Hc : dict_contains (_stocks ex) k = true).
  { unfold get_stock in H. unfold dict_contains.
    destruct (dict_get (_stocks ex) k); [reflexivity|discriminate]. }
  unfold create_common_stock, create_preferred_stock. rewrite Hc. simpl. auto.
Qed.

Lemma create_duplicate_symbol_witness :
  let ex := snd (create_common_stock Exchange_init "TEA" 0 10000) in
  get_stock ex "TEA" = Ok TEA /\
  create_common_stock ex "TEA" 8 10000 = (Raise ValueError, ex) /\
  create_preferred_stock ex "TEA" 8 rate_0_02 10000 = (Raise ValueError, ex) /\
  get_stock (snd (create_common_stock ex "TEA" 8 10000)) "TEA" = Ok TEA /\
  get_stock (snd (create_preferred_stock ex "TEA" 8 rate_0_02 10000)) "TEA" = Ok TEA.
Proof.
  cbv zeta. split; [reflexivity|].
  apply (create_duplicate_symbol _ "TEA" TEA 8 10000 rate_0_02). reflexivity.
Defined.

(** ** The lookback window *)

(** With a window of 10^10 minutes the cutoff falls before the year 1:
    [datetime.now() - timedelta(...)] raises OverflowError, although both
    trades of the ledger lie in the window. *)
Lemma window_claim_counterexample : ~ window_claim.
Proof.
  intros H.
  specialize (H (sample_now + 3000) TEA_traded (10 ^ 10)).
  assert (Hnow : 0 <= sample_now + 3000 <= Datetime.max) by (vm_compute; split; discriminate).
  specialize (H Hnow). vm_compute in H. discriminate.
Qed.

Lemma minus_minutes_ok (now w : Z) :
  0 <= now - w * 60000000 <= Datetime.max ->
  Datetime.minus_minutes now w = Ok (now - w * 60000000).
Proof.
  intros [H1 H2]. unfold Datetime.minus_minutes.
  destruct (Z.leb_spec 0 (now - w * 60000000)); [|lia].
  destruct (Z.leb_spec (now - w * 60000000) Datetime.max); [reflexivity|lia].
Qed.

Lemma minus_minutes_out (now : Datetime.datetime) (s : Stock) (w : Z) :
  ~ (0 <= now - w * 60000000 <= Datetime.max) ->
  volume_weighted_stock_price now s w = Raise OverflowError.
Proof.
  intros H. unfold volume_weighted_stock_price, Datetime.minus_minutes.
  destruct (Z.leb_spec 0 (now - w * 60000000)) as [H1|H1]; [|reflexivity].
  destruct (Z.leb_spec (now - w * 60000000) Datetime.max) as [H2|H2]; [|reflexivity].
  exfalso. apply H. split; assumption.
Qed.

Lemma filter_drop_one {A : Type} (f : A -> bool) (pre post : list A) (t : A) :
  f t = false -> filter f (pre ++ t :: post) = filter f (pre ++ post).
Proof.
  intros H. rewrite !filter_app. simpl. now rewrite H.
Qed.

(** C8 (amended).  Whenever the cutoff [now - w] is a date ([datetime] covers
    the years 1..9999), the price is computed from exactly the trades whose
    timestamp is [>= now - w]: a trade older than the cutoff (10 minutes old
    with a 5-minute window) never contributes, and with no trade in the
    window there is no result.  Whenever the cutoff is not a date, the call
    raises OverflowError, whatever the ledger holds. *)
Theorem vwsp_window (now : Datetime.datetime) (s : Stock) (w : Z) :
  (0 <= now - w * 60000000 <= Datetime.max ->
   volume_weighted_stock_price now s w
   = vwap_of_recent (filter (in_window now w) (_trades s)) /\
   (forall t, In t (filter (in_window now w) (_trades s)) <->
              In t (_trades s) /\ now - w * 60000000 <= timestamp t) /\
   (forall pre t post,
       _trades s = pre ++ t :: post ->
       timestamp t < now - w * 60000000 ->
       volume_weighted_stock_price now s w
       = volume_weighted_stock_price now (with_trades s (pre ++ post)) w) /\
   ((forall t, In t (_trades s) -> timestamp t < now - w * 60000000) ->
    volume_weighted_stock_price now s w = Ok None)) /\
  (~ (0 <= now - w * 60000000 <= Datetime.max) ->
   volume_weighted_stock_price now s w = Raise OverflowError).
Proof.
  split; [|apply minus_minutes_out].
  intros Hc.
  assert (E : forall s', volume_weighted_stock_price now s' w
              = vwap_of_recent (filter (in_window now w) (_trades s'))).
  { intros s'. unfold volume_weighted_stock_price.
    rewrite (minus_minutes_ok _ _ Hc). reflexivity. }
  split; [apply E|]. split; [|split].
  - intros t. rewrite filter_In. unfold in_window. rewrite Z.leb_le. tauto.
  - intros pre t post Ht Hold. rewrite !E. rewrite Ht. simpl.
    rewrite filter_drop_one; [reflexivity|].
    unfold in_window. apply Z.leb_gt. exact Hold.
  - intros Hall. rewrite E.
    replace (filter (in_window now w) (_trades s)) with (@nil Trade); [reflexivity|].
    symmetry. induction (_trades s) as [|t l IH]; [reflexivity|]. simpl.
    assert (Ht : in_window now w t = false).
    { unfold in_window. apply Z.leb_gt. apply Hall. now left. }
    rewrite Ht. apply IH. intros t' Ht'. apply Hall. now right.
Qed.

(** A trade made 10 minutes before the call, next to one made a second
    before it: the 5-minute price is that of the recent trade alone. *)
Lemma vwsp_window_witness :
  let now := sample_now in
  let old := mkTrade (now - 10 * 60000000) 1000 BUY 9550 in
  let new := mkTrade (now - 1000000) 2000 SELL 10230 in
  let s := with_trades TEA [old; new] in
  0 <= now - 5 * 60000000 <= Datetime.max /\
  volume_weighted_stock_price now s 5
  = volume_weighted_stock_price now (with_trades s [new]) 5 /\
  volume_weighted_stock_price now s 5 = Ok (Some (mkDec false 10230 (-2))) /\
  ~ (0 <= now - 10 ^ 10 * 60000000 <= Datetime.max) /\
  volume_weighted_stock_price now s (10 ^ 10) = Raise OverflowError.
Proof.
  cbv zeta. split; [vm_compute; split; discriminate|]. split; [|split; [|split]].
  - refine (proj1 (proj2 (proj2 (proj1 (vwsp_window sample_now
             (with_trades TEA [mkTrade (sample_now - 10 * 60000000) 1000 BUY 9550;
                               mkTrade (sample_now - 1000000) 2000 SELL 10230]) 5) _)))
             [] _ _ eq_refl _).
    + vm_compute; split; discriminate.
    + vm_compute. reflexivity.
  - vm_compute. reflexivity.
  - vm_compute. intros [H _]. apply H. reflexivity.
  - refine (proj2 (vwsp_window sample_now
             (with_trades TEA [mkTrade (sample_now - 10 * 60000000) 1000 BUY 9550;
                               mkTrade (sample_now - 1000000) 2000 SELL 10230])
             (10 ^ 10)) _).
    vm_compute. intros [H _]. apply H. reflexivity.
Defined.

(** ** Powers of ten and digit counts *)

Lemma pow10_pos (k : Z) : 0 <= k -> 0 < 10 ^ k.
Proof. intros. apply Z.pow_pos_nonneg; lia. Qed.

Lemma pow10_ge1 (k : Z) : 0 <= k -> 1 <= 10 ^ k.
Proof. intros H. pose proof (pow10_pos k H). lia. Qed.

Lemma pow10_succ (k : Z) : 0 <= k -> 10 ^ (k + 1) = 10 * 10 ^ k.
Proof. intros. rewrite Z.pow_add_r by lia. lia. Qed.

Lemma pow10_le (j k : Z) : 0 <= j <= k -> 10 ^ j <= 10 ^ k.
Proof. intros. apply Z.pow_le_mono_r; lia. Qed.

Lemma pow10_lt (j k : Z) : 0 <= j < k -> 10 ^ j < 10 ^ k.
Proof. intros. apply Z.pow_lt_mono_r; lia. Qed.

Lemma pow10_split (j k : Z) : 0 <= j <= k -> 10 ^ k = 10 ^ (k - j) * 10 ^ j.
Proof. intros. rewrite <- Z.pow_add_r by lia. f_equal. lia. Qed.

Lemma pow10_lt_inv (j k : Z) : 0 <= j -> 0 <= k -> 10 ^ j < 10 ^ k -> j < k.
Proof.
  intros Hj Hk H. destruct (Z_lt_le_dec j k) as [|Hge]; [assumption|].
  pose proof (pow10_le k j). lia.
Qed.

Lemma ndigits_aux_bounds (fuel : nat) : forall n,
  0 < n < 10 ^ (Z.of_nat fuel + 1) ->
  1 <= ndigits_aux fuel n /\
  10 ^ (ndigits_aux fuel n - 1) <= n < 10 ^ ndigits_aux fuel n.
Proof.
  induction fuel as [|f IH]; intros n Hn.
  - simpl in *. change (10 ^ (0 + 1)) with 10 in Hn. change (10 ^ (1 - 1)) with 1.
    change (10 ^ 1) with 10. lia.
  - cbn [ndigits_aux]. destruct (Z.ltb_spec n 10) as [Hlt|Hge].
    + change (10 ^ (1 - 1)) with 1. change (10 ^ 1) with 10. lia.
    + assert (Hq : 0 < n / 10 < 10 ^ (Z.of_nat f + 1)).
      { split; [apply Z.div_str_pos; lia|].
        apply Z.div_lt_upper_bound; [lia|].
        rewrite <- pow10_succ by lia.
        replace (Z.of_nat f + 1 + 1) with (Z.of_nat (S f) + 1) by lia. lia. }
      destruct (IH _ Hq) as (H1 & H2 & H3).
      set (r := ndigits_aux f (n / 10)) in *.
      replace (1 + r - 1) with ((r - 1) + 1) by lia.
      replace (1 + r) with (r + 1) by lia.
      rewrite !pow10_succ by lia.
      pose proof (Z.div_mod n 10 ltac:(lia)).
      pose proof (Z.mod_pos_bound n 10 ltac:(lia)). lia.
Qed.

Lemma ndigits_bounds (n : Z) :
  0 < n -> 1 <= ndigits n /\ 10 ^ (ndigits n - 1) <= n < 10 ^ ndigits n.
Proof.
  intros Hn. unfold ndigits. apply ndigits_aux_bounds. split; [assumption|].
  pose proof (Z.log2_nonneg n) as Hl. rewrite Z2Nat.id by assumption.
  destruct (Z.log2_spec n Hn) as [_ H].
  eapply Z.lt_le_trans; [exact H|].
  replace (Z.succ (Z.log2 n)) with (Z.log2 n + 1) by lia.
  apply Z.pow_le_mono_l. lia.
Qed.

Lemma ndigits_ge1 (n : Z) : 1 <= ndigits n.
Proof.
  destruct (Z_lt_le_dec 0 n) as [H|H]; [apply ndigits_bounds; assumption|].
  unfold ndigits. rewrite Z.log2_nonpos by assumption. simpl. lia.
Qed.

Lemma ndigits_unique (n k : Z) : 10 ^ (k - 1) <= n < 10 ^ k -> 1 <= k -> ndigits n = k.
Proof.
  intros [H1 H2] Hk.
  assert (Hn : 0 < n) by (pose proof (pow10_pos (k - 1)); lia).
  destruct (ndigits_bounds n Hn) as (H3 & H4 & H5).
  assert (ndigits n - 1 < k) by (apply pow10_lt_inv; lia).
  assert (k - 1 < ndigits n) by (apply pow10_lt_inv; lia). lia.
Qed.

Lemma ndigits_le (n k : Z) : 0 < n < 10 ^ k -> 0 <= k -> ndigits n <= k.
Proof.
  intros [Hn H] Hk. destruct (ndigits_bounds n Hn) as (H3 & H4 & H5).
  assert (ndigits n - 1 < k) by (apply pow10_lt_inv; lia). lia.
Qed.

Lemma ndigits_gt (n k : Z) : 10 ^ k <= n -> 0 <= k -> k < ndigits n.
Proof.
  intros H Hk. assert (Hn : 0 < n) by (pose proof (pow10_pos k); lia).
  destruct (ndigits_bounds n Hn) as (H3 & H4 & H5).
  apply pow10_lt_inv; lia.
Qed.

(** ** Rounding a coefficient *)

Lemma round_half_up_near (c k : Z) :
  0 <= c -> 0 <= k ->
  2 * Z.abs ((c / 10 ^ k + bump (round_half_up c k)) * 10 ^ k - c) <= 10 ^ k.
Proof.
  intros Hc Hk. pose proof (pow10_pos k Hk) as HP.
  pose proof (Z.div_mod c (10 ^ k) ltac:(lia)) as Hdm.
  pose proof (Z.mod_pos_bound c (10 ^ k) HP) as Hm.
  unfold round_half_up, bump.
  set (P := 10 ^ k) in *. set (q := c / P) in *. set (r := c mod P) in *.
  destruct (Z.leb_spec P (2 * r)); lia.
Qed.

Lemma round_half_even_near (c k : Z) :
  0 <= c -> 0 <= k ->
  2 * Z.abs ((c / 10 ^ k + bump (round_half_even c k)) * 10 ^ k - c) <= 10 ^ k.
Proof.
  intros Hc Hk. unfold round_half_even.
  destruct (Z.eqb_spec (2 * (c mod 10 ^ k)) (10 ^ k)) as [E|E]; cbn [andb].
  - destruct (Z.even (c / 10 ^ k)).
    + pose proof (pow10_pos k Hk) as HP.
      pose proof (Z.div_mod c (10 ^ k) ltac:(lia)) as Hdm.
      unfold bump. set (P := 10 ^ k) in *. set (q := c / P) in *.
      set (r := c mod P) in *. lia.
    + apply round_half_up_near; assumption.
  - apply round_half_up_near; assumption.
Qed.

Lemma round_half_up_formula (c k : Z) :
  0 <= c -> 0 <= k ->
  c / 10 ^ k + bump (round_half_up c k) = (2 * c + 10 ^ k) / (2 * 10 ^ k).
Proof.
  intros Hc Hk. pose proof (pow10_pos k Hk) as HP.
  pose proof (Z.div_mod c (10 ^ k) ltac:(lia)) as Hdm.
  pose proof (Z.mod_pos_bound c (10 ^ k) HP) as Hm.
  unfold round_half_up, bump.
  destruct (Z.leb_spec (10 ^ k) (2 * (c mod 10 ^ k))).
  - apply Z.div_unique with (r := 2 * (c mod 10 ^ k) - 10 ^ k); [left|]; lia.
  - apply Z.div_unique with (r := 2 * (c mod 10 ^ k) + 10 ^ k); [left|]; lia.
Qed.

(** ** [_fix] on a non-zero coefficient, above the subnormal range *)

Lemma fix_cases (s : bool) (c e : Z) :
  0 < c -> Etiny <= e ->
  (ndigits c <= prec /\
   _fix (mkDec s c e)
   = if Etop <? ndigits c + e - prec then Raise DecimalOverflow else Ok (mkDec s c e))
  \/
  (prec < ndigits c /\
   exists c' e',
     10 ^ 27 <= c' < 10 ^ 28 /\
     ndigits c - 28 <= e' - e <= ndigits c - 27 /\
     2 * Z.abs (c' * 10 ^ (e' - e) - c) <= 10 ^ (ndigits c - 28) /\
     _fix (mkDec s c e)
     = if Etop <? e' then Raise DecimalOverflow else Ok (mkDec s c' e')).
Proof.
  intros Hc He.
  destruct (ndigits_bounds c Hc) as (HL1 & HL2 & HL3).
  set (L := ndigits c) in *.
  unfold _fix. cbn [dsign dcoef dexp]. fold L.
  destruct (Z.eqb_spec c 0) as [|_]; [lia|].
  unfold prec in *.
  destruct (Z_le_gt_dec L 28) as [Hle|Hgt].
  - left. split; [assumption|].
    destruct (Etop <? L + e - 28); [reflexivity|].
    destruct (Z.ltb_spec e (Z.max (L + e - 28) Etiny)); [lia|reflexivity].
  - right. split; [lia|].
    set (k := L - 28).
    assert (Hk : 1 <= k) by (unfold k; lia).
    pose proof (pow10_pos k ltac:(lia)) as HP.
    set (q := c / 10 ^ k).
    assert (Hq : 10 ^ 27 <= q < 10 ^ 28).
    { unfold q. split.
      - apply Z.div_le_lower_bound; [lia|].
        rewrite Z.mul_comm, <- Z.pow_add_r by lia.
        replace (27 + k) with (L - 1) by (unfold k; lia). lia.
      - apply Z.div_lt_upper_bound; [lia|].
        rewrite <- Z.pow_add_r by lia.
        replace (k + 28) with L by (unfold k; lia). lia. }
    pose proof (round_half_even_near c k ltac:(lia) ltac:(lia)) as Hnear.
    fold q in Hnear.
    replace (Z.max (L + e - 28) Etiny) with (e + k) by (unfold k; lia).
    replace (L + e - 28) with (e + k) by (unfold k; lia).
    replace (L + e - (e + k)) with 28 by (unfold k; lia).
    change (28 <? 0) with false. cbv iota.
    replace (e + k - e) with k by lia. fold q.
    destruct (Z.ltb_spec e (e + k)) as [_|]; [|lia].
    destruct (round_half_even c k) eqn:Eb; cbn [bump andb] in *.
    + destruct (Z.ltb_spec 28 (ndigits (q + 1))) as [Hbig|Hsmall].
      * assert (Hq1 : q + 1 = 10 ^ 28).
        { destruct (Z_lt_le_dec (q + 1) (10 ^ 28)) as [Hlt|Hge]; [|lia].
          pose proof (ndigits_le (q + 1) 28 ltac:(lia) ltac:(lia)). lia. }
        exists (10 ^ 27), (e + k + 1).
        split; [lia|]. split; [unfold k; lia|]. split.
        -- replace (e + k + 1 - e) with (k + 1) by lia.
           rewrite pow10_succ by lia.
           replace (10 ^ 27 * (10 * 10 ^ k)) with ((q + 1) * 10 ^ k) by (rewrite Hq1; lia).
           exact Hnear.
        -- rewrite Hq1. change (10 ^ 28 / 10) with (10 ^ 27).
           destruct (Z.ltb_spec Etop (e + k)); destruct (Z.ltb_spec Etop (e + k + 1));
             try reflexivity; lia.
      * assert (Hq1 : q + 1 < 10 ^ 28).
        { destruct (Z_lt_le_dec (q + 1) (10 ^ 28)) as [Hlt|Hge]; [assumption|].
          pose proof (ndigits_gt (q + 1) 28 Hge ltac:(lia)). lia. }
        exists (q + 1), (e + k).
        split; [lia|]. split; [unfold k; lia|]. split.
        -- replace (e + k - e) with k by lia. exact Hnear.
        -- destruct (Z.ltb_spec Etop (e + k)); reflexivity.
    + exists q, (e + k).
      split; [lia|]. split; [unfold k; lia|]. split.
      * replace (e + k - e) with k by lia. rewrite Z.add_0_r in Hnear. exact Hnear.
      * destruct (Z.ltb_spec Etop (e + k)); reflexivity.
Qed.

(** ** Division *)

Lemma strip_zeros_spec (n : nat) : forall c e c' e',
  0 < c -> strip_zeros n c e = (c', e') ->
  0 < c' /\ e <= e' <= e + Z.of_nat n /\ c = c' * 10 ^ (e' - e).
Proof.
  induction n as [|n IH]; intros c e c' e' Hc H; cbn [strip_zeros] in H.
  - injection H as <- <-. rewrite Z.sub_diag. simpl. lia.
  - destruct (Z.eqb_spec (c mod 10) 0) as [E|E].
    + pose proof (Z.div_mod c 10 ltac:(lia)) as Hdm.
      assert (Hc' : 0 < c / 10) by lia.
      destruct (IH _ _ _ _ Hc' H) as (H1 & H2 & H3).
      split; [assumption|]. split; [lia|].
      replace (e' - e) with ((e' - (e + 1)) + 1) by lia.
      rewrite pow10_succ by lia. lia.
    + injection H as <- <-. rewrite Z.sub_diag. simpl. lia.
Qed.

Lemma strip_zeros_min (n : nat) : forall c e j m,
  0 < m -> 0 <= j <= Z.of_nat n -> c = m * 10 ^ j ->
  e + j <= snd (strip_zeros n c e).
Proof.
  induction n as [|n IH]; intros c e j m Hm Hj Hc; cbn [strip_zeros].
  - simpl. lia.
  - destruct (Z.eq_dec j 0) as [->|Hj0].
    + destruct (strip_zeros (S n) c e) as [c' e'] eqn:E.
      assert (0 < c) by (subst c; simpl; lia).
      destruct (strip_zeros_spec (S n) c e c' e' ltac:(assumption) E) as (_ & H2 & _).
      cbn [strip_zeros] in E. rewrite E. simpl. lia.
    + assert (Hc10 : c = 10 * (m * 10 ^ (j - 1))).
      { rewrite Hc. replace j with ((j - 1) + 1) at 1 by lia.
        rewrite pow10_succ by lia. lia. }
      assert (E0 : c mod 10 = 0).
      { rewrite Hc10. rewrite Z.mul_comm. apply Z.mod_mul. lia. }
      rewrite E0. cbn [Z.eqb].
      assert (Ediv : c / 10 = m * 10 ^ (j - 1)).
      { rewrite Hc10. rewrite Z.mul_comm. apply Z.div_mul. lia. }
      specialize (IH (c / 10) (e + 1) (j - 1) m Hm ltac:(lia) Ediv). lia.
Qed.

Lemma div_scaled_bounds (a b : Z) :
  0 < a -> 0 < b ->
  0 < div_den a b /\
  10 ^ 28 * div_den a b <= div_num a b < 10 ^ 30 * div_den a b.
Proof.
  intros Ha Hb. unfold div_num, div_den, div_shift, prec.
  destruct (ndigits_bounds a Ha) as (Ha1 & Ha2 & Ha3).
  destruct (ndigits_bounds b Hb) as (Hb1 & Hb2 & Hb3).
  set (la := ndigits a) in *. set (lb := ndigits b) in *.
  destruct (Z.leb_spec 0 (lb - la + 28 + 1)) as [Hs|Hs].
  - set (s := lb - la + 28 + 1) in *.
    pose proof (pow10_pos s Hs) as HP.
    assert (E1 : 10 ^ (la - 1) * 10 ^ s = 10 ^ 28 * 10 ^ lb).
    { rewrite <- !Z.pow_add_r by lia. f_equal. unfold s. lia. }
    assert (E2 : 10 ^ la * 10 ^ s = 10 ^ 30 * 10 ^ (lb - 1)).
    { rewrite <- !Z.pow_add_r by lia. f_equal. unfold s. lia. }
    split; [lia|]. split; nia.
  - set (t := - (lb - la + 28 + 1)) in *.
    assert (Ht : 0 < t) by (unfold t; lia).
    pose proof (pow10_pos t ltac:(lia)) as HP.
    assert (E1 : 10 ^ 28 * (10 ^ lb * 10 ^ t) = 10 ^ (la - 1)).
    { rewrite <- !Z.pow_add_r by lia. f_equal. unfold t. lia. }
    assert (E2 : 10 ^ 30 * (10 ^ (lb - 1) * 10 ^ t) = 10 ^ la).
    { rewrite <- !Z.pow_add_r by lia. f_equal. unfold t. lia. }
    split; [nia|]. split; nia.
Qed.

(** Rounding the quotient with its sticky digit is rounding the exact
    quotient [N / D]. *)
Lemma sticky_round (N D q q' M P : Z) :
  0 < D -> N = D * q + N mod D -> N mod D <> 0 ->
  q' = (if q mod 5 =? 0 then q + 1 else q) ->
  M mod 10 = 0 -> P mod 10 = 0 -> 0 < P ->
  2 * Z.abs (M - q') <= P ->
  2 * Z.abs (M * D - N) <= P * D.
Proof.
  intros HD HN Hr Hq' HM HP HP0 Hnear.
  pose proof (Z.mod_pos_bound N D HD) as Hb.
  set (r := N mod D) in *.
  assert (Hq5 : q' mod 5 <> 0).
  { destruct (Z.eqb_spec (q mod 5) 0) as [E|E]; subst q'; [|exact E].
    rewrite <- Z.add_mod_idemp_l by lia. rewrite E. reflexivity || discriminate. }
  assert (Hstrict : 2 * Z.abs (M - q') <= P - 2).
  { pose proof (Z.div_mod M 10 ltac:(lia)) as HMd.
    pose proof (Z.div_mod P 10 ltac:(lia)) as HPd.
    pose proof (Z.div_mod q' 5 ltac:(lia)) as Hqd.
    pose proof (Z.mod_pos_bound q' 5 ltac:(lia)) as Hqb.
    rewrite HM in HMd. rewrite HP in HPd.
    clear - HMd HPd Hqd Hqb Hq5 Hnear.
    set (v := q' mod 5) in *. set (u := q' / 5) in *.
    set (m := M / 10) in *. set (p := P / 10) in *. lia. }
  assert (Hq : q' = q \/ q' = q + 1).
  { subst q'. destruct (q mod 5 =? 0); auto. }
  set (t := M - q') in *.
  assert (HM' : M = t + q') by (unfold t; lia).
  rewrite HM', HN. clearbody t r. clear HM' HN Hnear HM HP.
  destruct Hq as [-> | ->]; nia.
Qed.

Lemma pow10_27 : 10 ^ 27 = 1000000000000000000000000000.
Proof. reflexivity. Qed.
Lemma pow10_28 : 10 ^ 28 = 10000000000000000000000000000.
Proof. reflexivity. Qed.
Lemma pow10_30 : 10 ^ 30 = 1000000000000000000000000000000.
Proof. reflexivity. Qed.

Ltac pow10_consts :=
  let H27 := fresh "Hp27" in
  let H28 := fresh "Hp28" in
  let H30 := fresh "Hp30" in
  pose proof pow10_27 as H27; pose proof pow10_28 as H28; pose proof pow10_30 as H30.

Lemma div_unfold (x y : Decimal) :
  0 < dcoef x -> 0 < dcoef y ->
  let a := dcoef x in
  let b := dcoef y in
  let sign := xorb (dsign x) (dsign y) in
  let exp := dexp x - dexp y - div_shift a b in
  let N := div_num a b in
  let D := div_den a b in
  div x y =
  if negb (N mod D =? 0) then
    _fix (mkDec sign (if (N / D) mod 5 =? 0 then N / D + 1 else N / D) exp)
  else
    let '(c', e') := strip_zeros (Z.to_nat (dexp x - dexp y - exp)) (N / D) exp in
    _fix (mkDec sign c' e').
Proof.
  intros Ha Hb. cbv zeta. unfold div.
  destruct (Z.eqb_spec (dcoef y) 0); [lia|].
  destruct (Z.eqb_spec (dcoef x) 0); [lia|].
  reflexivity.
Qed.

Lemma div_cases (x y : Decimal) :
  0 < dcoef x -> 0 < dcoef y ->
  let a := dcoef x in
  let b := dcoef y in
  let exp := dexp x - dexp y - div_shift a b in
  let N := div_num a b in
  let D := div_den a b in
  Etiny <= exp ->
  exists c e,
    0 < c < 10 ^ 28 /\ exp <= e /\
    (c * 10 ^ (e - exp) * D = N \/
     (exp < e /\ 10 ^ 27 <= c /\
      2 * Z.abs (c * 10 ^ (e - exp) * D - N) <= 10 ^ (e - exp) * D)) /\
    (div x y = Ok (mkDec (xorb (dsign x) (dsign y)) c e) \/
     (Etop < exp + 3 /\ div x y = Raise DecimalOverflow)).
Proof.
  intros Ha Hb a b exp N D Hexp. pow10_consts.
  rewrite (div_unfold x y Ha Hb). cbv zeta. fold a b exp N D.
  set (sign := xorb (dsign x) (dsign y)).
  destruct (div_scaled_bounds a b Ha Hb) as (HD & HN1 & HN2). fold N D in HD, HN1, HN2.
  pose proof (Z.div_mod N D ltac:(lia)) as Hdm.
  pose proof (Z.mod_pos_bound N D HD) as Hmb.
  set (q := N / D) in *.
  assert (Hq : 10 ^ 28 <= q < 10 ^ 30) by nia.
  destruct (Z.eqb_spec (N mod D) 0) as [Hr|Hr]; cbn [negb].
  - (* the quotient is exact *)
    destruct (strip_zeros (Z.to_nat (dexp x - dexp y - exp)) q exp) as [qs es] eqn:Es.
    assert (Hq0 : 0 < q) by lia.
    destruct (strip_zeros_spec _ q exp qs es Hq0 Es) as (Hqs & Hes & Hqq).
    assert (Hlen : ndigits qs + es - exp <= 30).
    { destruct (ndigits_bounds qs Hqs) as (Hl1 & Hl2 & _).
      assert (10 ^ (ndigits qs - 1 + (es - exp)) < 10 ^ 30).
      { rewrite Z.pow_add_r by lia.
        pose proof (pow10_pos (es - exp) ltac:(lia)). nia. }
      assert (ndigits qs - 1 + (es - exp) < 30) by (apply pow10_lt_inv; lia). lia. }
    destruct (fix_cases sign qs es Hqs ltac:(lia))
      as [(Hle & Efix) | (Hgt & c' & e' & Hc' & He' & Hnear & Efix)].
    + exists qs, es. unfold prec in *.
      split. { split; [lia|].
               destruct (Z_lt_le_dec qs (10 ^ 28)) as [|Hge]; [assumption|].
               pose proof (ndigits_gt qs 28 Hge ltac:(lia)). lia. }
      split; [lia|]. split.
      * left. rewrite <- Hqq. lia.
      * rewrite Efix. destruct (Z.ltb_spec Etop (ndigits qs + es - 28)); [right|left].
        -- split; [lia|reflexivity].
        -- reflexivity.
    + exists c', e'. unfold prec in *.
      split; [lia|]. split; [lia|]. split.
      * right. split; [lia|]. split; [lia|].
        replace (e' - exp) with ((e' - es) + (es - exp)) by lia.
        rewrite Z.pow_add_r by lia.
        pose proof (pow10_pos (es - exp) ltac:(lia)) as HP1.
        pose proof (pow10_le (ndigits qs - 28) (e' - es) ltac:(lia)) as HP2.
        set (P1 := 10 ^ (es - exp)) in *. set (P2 := 10 ^ (e' - es)) in *.
        set (P3 := 10 ^ (ndigits qs - 28)) in *.
        assert (EN : N = qs * P1 * D) by lia.
        rewrite EN.
        replace (c' * (P2 * P1) * D - qs * P1 * D) with ((c' * P2 - qs) * (P1 * D)) by ring.
        rewrite Z.abs_mul. rewrite (Z.abs_eq (P1 * D)) by nia.
        assert (0 < P1 * D) by nia. nia.
      * rewrite Efix. destruct (Z.ltb_spec Etop e'); [right|left].
        -- split; [lia|reflexivity].
        -- reflexivity.
  - (* the quotient is inexact: a sticky digit is added *)
    set (q' := if q mod 5 =? 0 then q + 1 else q).
    assert (Hq' : 10 ^ 28 <= q' < 10 ^ 30).
    { unfold q'. destruct (Z.eqb_spec (q mod 5) 0) as [E|E]; [|lia].
      split; [lia|]. destruct (Z.eq_dec (q + 1) (10 ^ 30)) as [E1|]; [|lia].
      exfalso. assert (Hq30 : q = 10 ^ 30 - 1) by lia.
      clear - E Hq30. rewrite Hq30 in E. vm_compute in E. discriminate. }
    assert (Hl : 28 < ndigits q' <= 30).
    { split; [apply ndigits_gt; lia|apply ndigits_le; lia]. }
    destruct (fix_cases sign q' exp ltac:(lia) Hexp)
      as [(Hle & Efix) | (Hgt & c' & e' & Hc' & He' & Hnear & Efix)];
      [unfold prec in *; lia|].
    exists c', e'. split; [lia|]. split; [lia|]. split.
    + right. split; [lia|]. split; [lia|].
      set (k := ndigits q' - 28) in *.
      assert (Hk : 1 <= k <= 2) by (unfold k; lia).
      pose proof (pow10_le k (e' - exp) ltac:(lia)) as HP2.
      pose proof (pow10_pos k ltac:(lia)) as HP.
      assert (HM10 : (c' * 10 ^ (e' - exp)) mod 10 = 0).
      { replace (e' - exp) with ((e' - exp - 1) + 1) by lia.
        rewrite pow10_succ by lia.
        replace (c' * (10 * 10 ^ (e' - exp - 1))) with (c' * 10 ^ (e' - exp - 1) * 10) by ring.
        apply Z.mod_mul. lia. }
      assert (HP10 : (10 ^ k) mod 10 = 0).
      { replace k with ((k - 1) + 1) by lia. rewrite pow10_succ by lia.
        rewrite Z.mul_comm. apply Z.mod_mul. lia. }
      pose proof (sticky_round N D q q' (c' * 10 ^ (e' - exp)) (10 ^ k)
                    HD Hdm Hr eq_refl HM10 HP10 HP Hnear) as Hs.
      nia.
    + rewrite Efix. destruct (Z.ltb_spec Etop e'); [right|left].
      * split; [lia|reflexivity].
      * reflexivity.
Qed.

(** ** Quantizing to two fractional digits *)

Lemma half_up_coef_nonneg (c e t : Z) : 0 <= c -> 0 <= half_up_coef c e t.
Proof.
  intros Hc. unfold half_up_coef. destruct (Z.leb_spec t e).
  - pose proof (pow10_pos (e - t) ltac:(lia)). nia.
  - pose proof (pow10_pos (t - e) ltac:(lia)). apply Z.div_pos; lia.
Qed.

Lemma rescale_half_up (s : bool) (c e t : Z) :
  0 < c -> rescale (mkDec s c e) t ROUND_HALF_UP = mkDec s (half_up_coef c e t) t.
Proof.
  intros Hc. unfold rescale, half_up_coef. cbn [dsign dcoef dexp round_with].
  destruct (Z.eqb_spec c 0); [lia|].
  destruct (Z.leb_spec t e) as [Hte|Hte]; [reflexivity|].
  f_equal.
  destruct (ndigits_bounds c Hc) as (Hl1 & Hl2 & Hl3).
  destruct (Z.ltb_spec (ndigits c + e - t) 0) as [Hneg|Hpos].
  - replace (t - (t - 1)) with 1 by lia.
    change (round_half_up 1 1) with false. change (1 / 10 ^ 1) with 0.
    symmetry. apply Z.div_small.
    pose proof (pow10_le (ndigits c) (t - e - 1) ltac:(lia)) as Hle.
    replace (t - e) with ((t - e - 1) + 1) by lia. rewrite pow10_succ by lia.
    pose proof (pow10_pos (t - e - 1) ltac:(lia)). lia.
  - rewrite <- round_half_up_formula by lia. unfold bump.
    destruct (round_half_up c (t - e)); lia.
Qed.

Lemma quantize2_cases (s : bool) (c e : Z) :
  0 < c ->
  quantize (mkDec s c e) (-2) ROUND_HALF_UP
  = if (28 <? ndigits c + e + 2) || (28 <? ndigits (half_up_coef c e (-2)))
    then Raise InvalidOperation
    else Ok (mkDec s (half_up_coef c e (-2)) (-2)).
Proof.
  intros Hc. unfold quantize. cbn [dsign dcoef dexp].
  change (negb ((Etiny <=? -2) && (-2 <=? Emax))) with false. cbv iota.
  destruct (Z.eqb_spec c 0); [lia|].
  unfold adjusted at 1 2. cbn [dcoef dexp]. unfold prec, Emax.
  destruct (Z.ltb_spec 999999 (e + ndigits c - 1)) as [H1|H1].
  { destruct (Z.ltb_spec 28 (ndigits c + e + 2)); [reflexivity|lia]. }
  destruct (Z.ltb_spec 28 (e + ndigits c - 1 - -2 + 1)) as [H2|H2].
  { destruct (Z.ltb_spec 28 (ndigits c + e + 2)); [reflexivity|lia]. }
  destruct (Z.ltb_spec 28 (ndigits c + e + 2)) as [|_]; [lia|]. cbn [orb].
  rewrite rescale_half_up by assumption.
  set (K := half_up_coef c e (-2)).
  assert (HK : 0 <= K) by (apply half_up_coef_nonneg; lia).
  unfold adjusted. cbn [dcoef dexp].
  destruct (Z.ltb_spec 28 (ndigits K)) as [H3|H3].
  { destruct (999999 <? -2 + ndigits K - 1); reflexivity. }
  destruct (Z.ltb_spec 999999 (-2 + ndigits K - 1)); [lia|].
  destruct (Z.eq_dec K 0) as [->|HK0]; [reflexivity|].
  destruct (fix_cases s K (-2) ltac:(lia) ltac:(unfold Etiny, Emin, prec; lia))
    as [(Hle & Efix) | (Hgt & _)]; [|unfold prec in *; lia].
  rewrite Efix.
  destruct (Z.ltb_spec Etop (ndigits K + -2 - prec)); [|reflexivity].
  unfold Etop, Emax, prec in *. lia.
Qed.

Lemma half_up_coef_shift (c e t u : Z) :
  half_up_coef c (e + u) (t + u) = half_up_coef c e t.
Proof.
  unfold half_up_coef.
  replace (e + u - (t + u)) with (e - t) by lia.
  replace (t + u - (e + u)) with (t - e) by lia.
  destruct (Z.leb_spec (t + u) (e + u)); destruct (Z.leb_spec t e); try lia; reflexivity.
Qed.

Lemma half_up_coef_scale (c e t k : Z) :
  0 <= c -> 0 <= k -> half_up_coef (c * 10 ^ k) (e - k) t = half_up_coef c e t.
Proof.
  intros Hc Hk. unfold half_up_coef.
  pose proof (pow10_pos k Hk) as HPk.
  destruct (Z.leb_spec t (e - k)) as [H1|H1]; destruct (Z.leb_spec t e) as [H2|H2]; try lia.
  - rewrite <- Z.mul_assoc, <- Z.pow_add_r by lia. do 2 f_equal. lia.
  - (* e - k < t <= e *)
    set (m := t - (e - k)). assert (Hm : 0 < m <= k) by (unfold m; lia).
    replace (e - t) with (k - m) by (unfold m; lia).
    rewrite (pow10_split m k) by lia.
    pose proof (pow10_pos m ltac:(lia)) as HPm.
    pose proof (pow10_pos (k - m) ltac:(lia)) as HPkm.
    set (X := c * 10 ^ (k - m)).
    replace (2 * (c * (10 ^ (k - m) * 10 ^ m)) + 10 ^ m)
      with ((2 * X + 1) * 10 ^ m) by (unfold X; ring).
    rewrite Z.div_mul_cancel_r by lia.
    symmetry. apply Z.div_unique with (r := 1); [left|]; lia.
  - replace (t - (e - k)) with ((t - e) + k) by lia.
    rewrite Z.pow_add_r by lia.
    pose proof (pow10_pos (t - e) ltac:(lia)) as HP.
    replace (2 * (c * 10 ^ k) + 10 ^ (t - e) * 10 ^ k)
      with ((2 * c + 10 ^ (t - e)) * 10 ^ k) by ring.
    replace (2 * (10 ^ (t - e) * 10 ^ k)) with (2 * 10 ^ (t - e) * 10 ^ k) by ring.
    apply Z.div_mul_cancel_r; lia.
Qed.

(** ** Dividing by one hundred is exact *)

Lemma div_100 (s : bool) (c e : Z) :
  0 < c -> ndigits c <= 28 -> Etiny + 31 <= e <= Etop ->
  exists c2 e2,
    div (mkDec s c e) (of_int 100) = Ok (mkDec s c2 e2) /\
    0 < c2 /\ e - 2 <= e2 <= e /\ c = c2 * 10 ^ (e2 - e + 2).
Proof.
  intros Hc Hl He.
  pose proof (ndigits_ge1 c) as Hl1.
  assert (H100 : dcoef (of_int 100) = 100) by reflexivity.
  assert (Hb : 0 < dcoef (of_int 100)) by (rewrite H100; lia).
  rewrite (div_unfold (mkDec s c e) (of_int 100) Hc Hb). cbv zeta.
  rewrite H100. cbn [dsign dcoef dexp of_int].
  change (100 <? 0) with false. rewrite xorb_false_r.
  unfold div_num, div_den, div_shift, prec. change (ndigits 100) with 3.
  set (sh := 3 - ndigits c + 28 + 1).
  assert (Hsh : 4 <= sh <= 31) by (unfold sh; lia).
  destruct (Z.leb_spec 0 sh); [|lia].
  pose proof (pow10_pos (sh - 2) ltac:(lia)) as HP.
  assert (EN : c * 10 ^ sh = c * 10 ^ (sh - 2) * 100).
  { rewrite (pow10_split 2 sh) by lia. change (10 ^ 2) with 100. ring. }
  rewrite EN. rewrite Z.mod_mul by lia. rewrite Z.div_mul by lia. cbn [Z.eqb negb].
  replace (e - 0 - (e - 0 - sh)) with sh by lia.
  destruct (strip_zeros (Z.to_nat sh) (c * 10 ^ (sh - 2)) (e - 0 - sh)) as [qs es] eqn:Es.
  assert (Hq0 : 0 < c * 10 ^ (sh - 2)) by nia.
  destruct (strip_zeros_spec _ _ _ _ _ Hq0 Es) as (Hqs & Hes & Hqq).
  pose proof (strip_zeros_min (Z.to_nat sh) (c * 10 ^ (sh - 2)) (e - 0 - sh) (sh - 2) c
                Hc ltac:(lia) eq_refl) as Hmin.
  rewrite Es in Hmin. cbn [snd] in Hmin. rewrite Z2Nat.id in Hes by lia.
  assert (Hc2 : c = qs * 10 ^ (es - e + 2)).
  { replace (es - (e - 0 - sh)) with ((es - e + 2) + (sh - 2)) in Hqq by lia.
    rewrite Z.pow_add_r in Hqq by lia.
    pose proof (pow10_pos (es - e + 2) ltac:(lia)). nia. }
  assert (Hqsc : qs <= c).
  { pose proof (pow10_pos (es - e + 2) ltac:(lia)). nia. }
  assert (Hlqs : ndigits qs <= 28).
  { destruct (ndigits_bounds c Hc) as (_ & _ & Hc3).
    apply ndigits_le; [|lia].
    pose proof (pow10_le (ndigits c) 28 ltac:(lia)). lia. }
  exists qs, es.
  destruct (fix_cases s qs es Hqs ltac:(lia)) as [(_ & Efix) | (Hgt & _)];
    [|unfold prec in *; lia].
  rewrite Efix.
  destruct (Z.ltb_spec Etop (ndigits qs + es - prec)) as [Hov|_];
    [unfold prec in *; lia|].
  split; [reflexivity|]. split; [assumption|]. split; [lia|assumption].
Qed.

Lemma half_up_div_bounds (n d : Z) :
  0 < d -> 2 * d * half_up_div n d <= 2 * n + d < 2 * d * half_up_div n d + 2 * d.
Proof.
  intros Hd. unfold half_up_div.
  pose proof (Z.div_mod (2 * n + d) (2 * d) ltac:(lia)).
  pose proof (Z.mod_pos_bound (2 * n + d) (2 * d) ltac:(lia)). lia.
Qed.

Lemma half_up_div_unique (n d K : Z) :
  0 < d -> 2 * d * K <= 2 * n + d < 2 * d * K + 2 * d -> half_up_div n d = K.
Proof.
  intros Hd H. unfold half_up_div. symmetry.
  apply Z.div_unique with (r := 2 * n + d - 2 * d * K); [left|]; lia.
Qed.

(** Rounding to 28 digits and then half-up to an integer is rounding once,
    when the numerator is below 10^27. *)
Lemma round_twice (a b c P : Z) :
  0 < b -> 0 <= a < 10 ^ 27 -> 10 ^ 27 <= c -> 0 < P -> P mod 2 = 0 ->
  2 * Z.abs (c * b - a * P) <= b ->
  half_up_div c P = half_up_div a b.
Proof.
  intros Hb Ha Hc HP Heven Hnear. pow10_consts.
  assert (HbP : b < P).
  { destruct (Z_lt_le_dec b P) as [|Hge]; [assumption|]. exfalso.
    assert (2 * c * b - b <= 2 * a * P) by lia.
    assert (2 * a * P <= 2 * a * b) by nia.
    assert ((2 * c - 1 - 2 * a) * b <= 0) by nia. nia. }
  pose proof (half_up_div_bounds a b Hb) as HK.
  set (K := half_up_div a b) in *.
  apply half_up_div_unique; [assumption|].
  pose proof (Z.div_mod P 2 ltac:(lia)) as HP2. rewrite Heven in HP2.
  set (p := P / 2) in *.
  split.
  - destruct (Z_le_gt_dec (2 * P * K) (2 * c + P)) as [|Hgt]; [assumption|]. exfalso.
    assert (H1 : 2 * c + P + 2 <= 2 * P * K) by lia.
    assert (H2 : (2 * c + P + 2) * b <= 2 * P * K * b) by nia.
    assert (H3 : 2 * b * K * P <= (2 * a + b) * P) by nia.
    lia.
  - destruct (Z_lt_le_dec (2 * c + P) (2 * P * K + 2 * P)) as [|Hge]; [assumption|]. exfalso.
    assert (H2 : (2 * P * K + 2 * P) * b <= (2 * c + P) * b) by nia.
    assert (H3 : (2 * a + b + 1) * P <= (2 * b * K + 2 * b) * P) by nia.
    lia.
Qed.

Lemma of_int_pos (a : Z) : 0 < a -> of_int a = mkDec false a 0.
Proof.
  intros Ha. unfold of_int. destruct (Z.ltb_spec a 0); [lia|].
  now rewrite Z.abs_eq by lia.
Qed.

Lemma pow10_even (k : Z) : 0 < k -> (10 ^ k) mod 2 = 0.
Proof.
  intros Hk. replace k with ((k - 1) + 1) by lia. rewrite pow10_succ by lia.
  replace (10 * 10 ^ (k - 1)) with (5 * 10 ^ (k - 1) * 2) by ring.
  apply Z.mod_mul. lia.
Qed.

Lemma pow10_le_inv (j k : Z) : 0 <= j -> 0 <= k -> 10 ^ j <= 10 ^ k -> j <= k.
Proof.
  intros Hj Hk H. destruct (Z_le_gt_dec j k) as [|Hgt]; [assumption|].
  pose proof (pow10_lt k j ltac:(lia)). lia.
Qed.

(** The quotient of two positive integers, rounded to 28 digits by [div]
    and then half-up at [j] fractional digits, is the exact quotient rounded
    half-up once, as long as the scaled numerator is below 10^27. *)
Lemma div_int_round (a b j : Z) :
  0 < a -> 0 < b -> 0 <= j -> a * 10 ^ j < 10 ^ 27 -> ndigits b <= 999000 ->
  exists c e,
    div (of_int a) (of_int b) = Ok (mkDec false c e) /\
    0 < c < 10 ^ 28 /\ - 999100 <= e /\ ndigits c + e + j <= 27 /\
    half_up_coef c e (- j) = half_up_div (a * 10 ^ j) b.
Proof.
  intros Ha Hb Hj HaJ Hlb. pow10_consts.
  pose proof (pow10_pos j Hj) as HJ. set (J := 10 ^ j) in *.
  rewrite (of_int_pos a Ha), (of_int_pos b Hb).
  destruct (ndigits_bounds a Ha) as (Hla1 & Hla2 & Hla3).
  pose proof (ndigits_ge1 b) as Hlb1.
  assert (Hla : ndigits a <= 27).
  { apply ndigits_le; [nia|lia]. }
  pose proof (div_cases (mkDec false a 0) (mkDec false b 0) Ha Hb) as Hdiv.
  cbv zeta in Hdiv. cbn [dsign dcoef dexp xorb] in Hdiv.
  unfold div_num, div_den in Hdiv.
  set (s := div_shift a b) in *.
  assert (Hs : 3 <= s <= 999029) by (unfold s, div_shift, prec; lia).
  destruct (Z.leb_spec 0 s) as [_|]; [|lia].
  specialize (Hdiv ltac:(unfold Etiny, Emin, prec; lia)).
  destruct Hdiv as (c & e & Hc & He & Hval & Hres).
  destruct Hres as [Hres | [Hov _]]; [|unfold Etop, Emax, prec in Hov; lia].
  exists c, e. split; [exact Hres|]. split; [assumption|]. split; [lia|].
  set (d := e - (0 - 0 - s)) in *.
  assert (Hd : 0 <= d) by (unfold d; lia).
  assert (Ee : e = d - s) by (unfold d; lia).
  pose proof (pow10_pos d Hd) as HPd. pose proof (pow10_pos s ltac:(lia)) as HPs.
  destruct (ndigits_bounds c ltac:(lia)) as (Hlc1 & Hlc2 & Hlc3).
  destruct Hval as [Hex | (Hd1 & Hc27 & Hnear)].
  - (* no rounding in [div] *)
    split.
    + assert (Hlt : 10 ^ (ndigits c - 1 + d + j) < 10 ^ (27 + s)).
      { rewrite !Z.pow_add_r by lia. fold J.
        set (X := 10 ^ (ndigits c - 1)) in *. set (Pd := 10 ^ d) in *.
        set (Ps := 10 ^ s) in *.
        assert (H1 : X * Pd <= c * Pd) by (apply Z.mul_le_mono_nonneg_r; lia).
        assert (H2 : c * Pd * 1 <= c * Pd * b) by (apply Z.mul_le_mono_nonneg_l; nia).
        assert (H3 : a * J * Ps < 10 ^ 27 * Ps) by (apply Z.mul_lt_mono_pos_r; lia).
        assert (H4 : X * Pd * J <= a * Ps * J) by (apply Z.mul_le_mono_nonneg_r; lia).
        lia. }
      apply pow10_lt_inv in Hlt; lia.
    + unfold half_up_coef. destruct (Z.leb_spec (- j) e) as [Hje|Hje].
      * set (K0 := c * 10 ^ (e - - j)).
        assert (EK : K0 * b = a * J).
        { assert (E1 : K0 * 10 ^ s = c * 10 ^ d * J).
          { unfold K0, J. rewrite <- !Z.mul_assoc, <- !Z.pow_add_r by lia.
            do 2 f_equal. lia. }
          nia. }
        symmetry. apply half_up_div_unique; lia.
      * set (P := 10 ^ (- j - e)).
        pose proof (pow10_pos (- j - e) ltac:(lia)) as HP. fold P in HP.
        assert (EP : 10 ^ s = 10 ^ d * (J * P)).
        { unfold J, P. rewrite <- !Z.pow_add_r by lia. f_equal. lia. }
        assert (Ecb : c * b = a * J * P) by nia.
        change ((2 * c + P) / (2 * P)) with (half_up_div c P).
        pose proof (half_up_div_bounds (a * J) b Hb) as HK.
        set (K := half_up_div (a * J) b) in *.
        apply half_up_div_unique; [assumption|].
        split.
        -- assert ((2 * P * K) * b <= (2 * c + P) * b) by nia. nia.
        -- assert ((2 * c + P) * b < (2 * P * K + 2 * P) * b) by nia. nia.
  - (* [div] rounds to 28 digits *)
    assert (Hsdj : d + j < s).
    { destruct (Z_lt_le_dec (d + j) s) as [|Hge]; [assumption|]. exfalso.
      assert (Hle : 10 ^ s <= 10 ^ d * J).
      { unfold J. rewrite <- Z.pow_add_r by lia. apply pow10_le. lia. }
      set (Pd := 10 ^ d) in *. set (Ps := 10 ^ s) in *.
      assert (H1 : 2 * (c * Pd * b) - Pd * b <= 2 * (a * Ps)) by lia.
      assert (H2 : a * Ps <= a * (Pd * J)) by nia.
      assert (H3 : (2 * c - 1) * b * Pd <= 2 * (a * J) * Pd) by nia.
      assert (H4 : (2 * c - 1) * b <= 2 * (a * J)) by nia.
      nia. }
    set (P := 10 ^ (s - d - j)).
    pose proof (pow10_pos (s - d - j) ltac:(lia)) as HP. fold P in HP.
    assert (EP : 10 ^ s = 10 ^ d * (J * P)).
    { unfold J, P. rewrite <- !Z.pow_add_r by lia. f_equal. lia. }
    assert (Hnear' : 2 * Z.abs (c * b - a * J * P) <= b).
    { rewrite EP in Hnear.
      replace (c * 10 ^ d * b - a * (10 ^ d * (J * P)))
        with ((c * b - a * J * P) * 10 ^ d) in Hnear by ring.
      rewrite Z.abs_mul, (Z.abs_eq (10 ^ d)) in Hnear by lia.
      set (Pd := 10 ^ d) in *. nia. }
    split.
    + assert (ndigits c <= 28) by (apply ndigits_le; lia). lia.
    + unfold half_up_coef. destruct (Z.leb_spec (- j) e); [lia|].
      replace (- j - e) with (s - d - j) by lia. fold P.
      change ((2 * c + P) / (2 * P)) with (half_up_div c P).
      apply round_twice; try lia.
      unfold P. apply pow10_even. lia.
Qed.

Lemma ndigits_mul_pow10 (c k : Z) : 0 < c -> 0 <= k -> ndigits (c * 10 ^ k) = ndigits c + k.
Proof.
  intros Hc Hk. destruct (ndigits_bounds c Hc) as (H1 & H2 & H3).
  pose proof (pow10_pos k Hk) as HP.
  apply ndigits_unique; [|lia]. split.
  - replace (ndigits c + k - 1) with ((ndigits c - 1) + k) by lia.
    rewrite Z.pow_add_r by lia. apply Z.mul_le_mono_nonneg_r; lia.
  - rewrite Z.pow_add_r by lia. apply Z.mul_lt_mono_pos_r; lia.
Qed.

Lemma half_up_div_le (n d : Z) : 0 <= n -> 0 < d -> 0 <= half_up_div n d <= n.
Proof.
  intros Hn Hd. unfold half_up_div. split.
  - apply Z.div_pos; lia.
  - destruct (Z.eq_dec n 0) as [->|Hn0].
    + rewrite Z.div_small; lia.
    + assert (H : (2 * n + d) / (2 * d) < n + 1); [|lia].
      apply Z.div_lt_upper_bound; nia.
Qed.

Lemma sum_Z_acc (l : list Z) (acc : Z) : fold_left Z.add l acc = acc + sum_Z l.
Proof.
  unfold sum_Z. revert acc. induction l as [|x l IH]; intros acc; simpl; [lia|].
  rewrite IH, (IH x). lia.
Qed.

Lemma sum_Z_cons (x : Z) (l : list Z) : sum_Z (x :: l) = x + sum_Z l.
Proof. unfold sum_Z at 1. simpl. apply sum_Z_acc. Qed.

Lemma ledger_sums (l : list Trade) :
  ledger_ok l -> 0 <= total_quantity l <= weighted_sum l /\
                 (l <> [] -> 0 < total_quantity l).
Proof.
  unfold total_quantity, weighted_sum.
  induction 1 as [|t l [Hq Hp] _ IH]; [split; [cbn; lia|congruence]|].
  cbn [map]. rewrite !sum_Z_cons. split; [nia|]. intros _. lia.
Qed.

Lemma vwap_of_recent_exact (recent : list Trade) :
  recent <> [] -> ledger_ok recent -> weighted_sum recent < 10 ^ 27 ->
  vwap_of_recent recent
  = Ok (Some (mkDec false (half_up_div (weighted_sum recent) (total_quantity recent)) (-2))).
Proof.
  intros Hne Hok HW. pow10_consts.
  destruct (ledger_sums recent Hok) as [HTW HT]. specialize (HT Hne).
  unfold vwap_of_recent. destruct recent as [|t0 l0]; [congruence|].
  set (recent := t0 :: l0) in *.
  fold (total_quantity recent) (weighted_sum recent).
  set (T := total_quantity recent) in *. set (W := weighted_sum recent) in *.
  destruct (Z.eqb_spec T 0); [lia|].
  assert (HlT : ndigits T <= 999000).
  { pose proof (ndigits_le T 27 ltac:(lia) ltac:(lia)). lia. }
  destruct (div_int_round W T 0 ltac:(lia) HT ltac:(lia) ltac:(change (10 ^ 0) with 1; lia) HlT)
    as (c & e & Ediv & Hc & He & Hlen & HK).
  rewrite Ediv. cbn [bind].
  assert (Hlc : ndigits c <= 28) by (apply ndigits_le; lia).
  pose proof (ndigits_ge1 c) as Hlc1.
  destruct (div_100 false c e ltac:(lia) Hlc ltac:(unfold Etiny, Etop, Emin, Emax, prec; lia))
    as (c2 & e2 & Ediv2 & Hc2 & He2 & Hcc).
  rewrite Ediv2. cbn [bind].
  rewrite quantize2_cases by assumption.
  assert (EK : half_up_coef c2 e2 (-2) = half_up_div W T).
  { change (10 ^ 0) with 1 in HK. rewrite Z.mul_1_r in HK.
    rewrite <- HK. rewrite Hcc.
    replace e with ((e2 + 2) - (e2 - e + 2)) at 2 by lia.
    rewrite half_up_coef_scale by lia.
    change (- 0) with (-2 + 2). symmetry. apply half_up_coef_shift. }
  assert (Hd2 : ndigits c2 + e2 + 2 <= 28).
  { rewrite Hcc in Hlen. rewrite ndigits_mul_pow10 in Hlen by lia. lia. }
  rewrite EK.
  pose proof (half_up_div_le W T ltac:(lia) HT) as HKb.
  assert (HlK : ndigits (half_up_div W T) <= 28).
  { destruct (Z.eq_dec (half_up_div W T) 0) as [->|]; [vm_compute; discriminate|].
    pose proof (ndigits_le (half_up_div W T) 27 ltac:(lia) ltac:(lia)). lia. }
  destruct (Z.ltb_spec 28 (ndigits c2 + e2 + 2)); [lia|].
  destruct (Z.ltb_spec 28 (ndigits (half_up_div W T))); [lia|].
  reflexivity.
Qed.

(** ** A lower bound that rounding keeps: powers of ten *)

Lemma div_keeps_pow10 (N D exp c e k : Z) :
  0 < D -> 0 < c -> exp <= e ->
  (c * 10 ^ (e - exp) * D = N \/
   2 * Z.abs (c * 10 ^ (e - exp) * D - N) <= 10 ^ (e - exp) * D) ->
  (k <= exp \/ 10 ^ (k - exp) * D <= N) ->
  ge_pow10 c e k.
Proof.
  intros HD Hc He Hval Hk. unfold ge_pow10.
  destruct (Z_le_gt_dec k e) as [|Hke]; [now left|right].
  destruct Hk as [|Hk]; [lia|].
  set (d := e - exp) in *.
  assert (Hd : 0 <= d) by (unfold d; lia).
  pose proof (pow10_pos d Hd) as HPd.
  pose proof (pow10_pos (k - e) ltac:(lia)) as HPm.
  assert (E : 10 ^ (k - exp) = 10 ^ (k - e) * 10 ^ d).
  { rewrite <- Z.pow_add_r by lia. f_equal. unfold d. lia. }
  rewrite E in Hk.
  set (Pd := 10 ^ d) in *. set (Pm := 10 ^ (k - e)) in *.
  destruct Hval as [Hex|Hnear].
  - assert (Pm * Pd * D <= c * Pd * D) by lia.
    assert (Pm * (Pd * D) <= c * (Pd * D)) by lia.
    assert (0 < Pd * D) by (apply Z.mul_pos_pos; lia).
    apply Z.mul_le_mono_pos_r with (p := Pd * D); assumption.
  - assert (H1 : 2 * N - Pd * D <= 2 * (c * Pd * D)) by lia.
    assert (H2 : (2 * Pm - 1) * (Pd * D) <= (2 * c) * (Pd * D)) by lia.
    assert (H3 : 0 < Pd * D) by (apply Z.mul_pos_pos; lia).
    assert (H4 : 2 * Pm - 1 <= 2 * c).
    { apply Z.mul_le_mono_pos_r with (p := Pd * D); assumption. }
    lia.
Qed.

Lemma half_up_coef_ge1 (c e : Z) :
  0 < c -> ge_pow10 c e (-2) -> 1 <= half_up_coef c e (-2).
Proof.
  intros Hc Hge. unfold half_up_coef.
  destruct (Z.leb_spec (-2) e) as [Hle|Hlt].
  - pose proof (pow10_pos (e - -2) ltac:(lia)) as HP.
    assert (1 * 1 <= c * 10 ^ (e - -2)) by (apply Z.mul_le_mono_nonneg; lia). lia.
  - destruct Hge as [|Hge]; [lia|].
    pose proof (pow10_pos (-2 - e) ltac:(lia)) as HP.
    apply Z.div_le_lower_bound; lia.
Qed.

(** C10's arithmetic: on a non-empty list of valid trades a price that is
    returned is at least 0.01. *)
Lemma vwap_of_recent_positive (recent : list Trade) (d : Decimal) :
  ledger_ok recent ->
  vwap_of_recent recent = Ok (Some d) ->
  dsign d = false /\ dexp d = -2 /\ 1 <= dcoef d.
Proof.
  intros Hok H.
  destruct (ledger_sums recent Hok) as [HTW HT].
  unfold vwap_of_recent in H. destruct recent as [|t0 l0]; [discriminate H|].
  set (recent := t0 :: l0) in *.
  assert (Hne : recent <> []) by (unfold recent; intros Hnil; discriminate Hnil).
  specialize (HT Hne). pow10_consts.
  fold (total_quantity recent) (weighted_sum recent) in H.
  set (T := total_quantity recent) in *. set (W := weighted_sum recent) in *.
  destruct (Z.eqb_spec T 0); [lia|].
  rewrite (of_int_pos W ltac:(lia)), (of_int_pos T HT) in H.
  (* the quotient of the sums *)
  pose proof (div_cases (mkDec false W 0) (mkDec false T 0) ltac:(simpl; lia) HT) as Hdiv.
  cbv zeta in Hdiv. cbn [dsign dcoef dexp xorb] in Hdiv.
  pose proof (div_scaled_bounds W T ltac:(lia) HT) as (HD & _).
  assert (HlTW : ndigits T <= ndigits W).
  { destruct (ndigits_bounds T HT) as (HT0 & HT1 & _).
    destruct (ndigits_bounds W ltac:(lia)) as (HW0 & _ & HW2).
    assert (ndigits T - 1 < ndigits W) by (apply pow10_lt_inv; lia). lia. }
  assert (Hs : div_shift W T <= 29) by (unfold div_shift, prec; lia).
  specialize (Hdiv ltac:(unfold Etiny, Emin, prec; lia)).
  destruct Hdiv as (c & e & Hc & He & Hval & Hres).
  destruct Hres as [Hres | [_ Hres]]; rewrite Hres in H; [|discriminate H].
  cbn [bind] in H.
  assert (Hge0 : ge_pow10 c e 0).
  { assert (Hv : c * 10 ^ (e - (0 - 0 - div_shift W T)) * div_den W T = div_num W T \/
                 2 * Z.abs (c * 10 ^ (e - (0 - 0 - div_shift W T)) * div_den W T - div_num W T)
                 <= 10 ^ (e - (0 - 0 - div_shift W T)) * div_den W T).
    { destruct Hval as [Hex|(_ & _ & Hn)]; [left; exact Hex|right; exact Hn]. }
    assert (Hq : 0 <= 0 - 0 - div_shift W T \/
                 10 ^ (0 - (0 - 0 - div_shift W T)) * div_den W T <= div_num W T).
    { unfold div_num, div_den. destruct (Z.leb_spec 0 (div_shift W T)); [right|left; lia].
      replace (0 - (0 - 0 - div_shift W T)) with (div_shift W T) by lia.
      pose proof (pow10_pos (div_shift W T) ltac:(lia)) as HPs.
      rewrite Z.mul_comm. apply Z.mul_le_mono_nonneg_r; lia. }
    exact (div_keeps_pow10 _ _ _ c e 0 HD ltac:(lia) He Hv Hq). }
  (* the division by 100 *)
  assert (Hlc : 1 <= ndigits c <= 28).
  { split; [apply ndigits_ge1|apply ndigits_le; lia]. }
  pose proof (div_cases (mkDec false c e) (of_int 100) ltac:(simpl; lia) ltac:(simpl; lia))
    as Hdiv2.
  cbv zeta in Hdiv2. cbn [dsign dcoef dexp xorb of_int Z.abs] in Hdiv2.
  change (100 <? 0) with false in Hdiv2.
  pose proof (div_scaled_bounds c 100 ltac:(lia) ltac:(lia)) as (HD2 & _).
  assert (Es2 : div_shift c 100 = 32 - ndigits c) by (unfold div_shift, prec; change (ndigits 100) with 3; lia).
  specialize (Hdiv2 ltac:(unfold Etiny, Emin, prec; lia)).
  destruct Hdiv2 as (c2 & e2 & Hc2 & He2 & Hval2 & Hres2).
  destruct Hres2 as [Hres2 | [_ Hres2]]; rewrite Hres2 in H; [|discriminate H].
  cbn [bind] in H.
  assert (Hge2 : ge_pow10 c2 e2 (-2)).
  { assert (Hv : c2 * 10 ^ (e2 - (e - 0 - div_shift c 100)) * div_den c 100 = div_num c 100 \/
                 2 * Z.abs (c2 * 10 ^ (e2 - (e - 0 - div_shift c 100)) * div_den c 100
                            - div_num c 100)
                 <= 10 ^ (e2 - (e - 0 - div_shift c 100)) * div_den c 100).
    { destruct Hval2 as [Hex|(_ & _ & Hn)]; [left; exact Hex|right; exact Hn]. }
    assert (Hq : -2 <= e - 0 - div_shift c 100 \/
                 10 ^ (-2 - (e - 0 - div_shift c 100)) * div_den c 100 <= div_num c 100).
    { unfold div_num, div_den. rewrite Es2.
      destruct (Z.leb_spec 0 (32 - ndigits c)); [|lia].
      destruct (Z_le_gt_dec (-2) (e - 0 - (32 - ndigits c))) as [Hle2|Hlt];
        [left; exact Hle2|right].
      set (s2 := 32 - ndigits c) in *.
      replace (-2 - (e - 0 - s2)) with ((s2 - e - 2)) by lia.
      pose proof (pow10_pos s2 ltac:(lia)) as HP2.
      destruct (Z_le_gt_dec 0 e) as [He0|He0].
      + assert (Hle : 10 ^ (s2 - e - 2) * 10 ^ 2 <= 10 ^ s2).
        { rewrite <- Z.pow_add_r by lia. apply pow10_le. lia. }
        change (10 ^ 2) with 100 in Hle.
        assert (1 * 10 ^ s2 <= c * 10 ^ s2) by (apply Z.mul_le_mono_nonneg_r; lia). lia.
      + destruct Hge0 as [|Hce]; [lia|].
        assert (E : 10 ^ (s2 - e - 2) * 10 ^ 2 = 10 ^ (0 - e) * 10 ^ s2).
        { rewrite <- !Z.pow_add_r by lia. f_equal. lia. }
        change (10 ^ 2) with 100 in E. rewrite E.
        apply Z.mul_le_mono_nonneg_r; lia. }
    exact (div_keeps_pow10 _ _ _ c2 e2 (-2) HD2 ltac:(lia) He2 Hv Hq). }
  (* the final rounding *)
  rewrite quantize2_cases in H by lia.
  destruct (_ || _); [discriminate H|].
  injection H as <-. cbn [dsign dcoef dexp].
  split; [reflexivity|]. split; [reflexivity|].
  apply half_up_coef_ge1; [lia|assumption].
Qed.

(** * Further properties of the code *)

(** ** Constructors *)

(** X1.  [CommonStock(symbol, last_dividend, par_value)] returns a stock
    exactly when the symbol has 1 to 10 characters (code points, as [len]
    counts them, not bytes), the par value is positive and the last dividend
    is not negative; the stock then carries these values and an empty
    ledger.  Every other input raises ValueError. *)
Theorem CommonStock_init_iff (sym : string) (ld par : Z) :
  (forall s, CommonStock_init sym ld par = Ok s <->
             (1 <= len sym <= 10)%nat /\ 0 < par /\ 0 <= ld /\
             s = mkStock sym par ld CommonStock []) /\
  (forall e, CommonStock_init sym ld par = Raise e -> e = ValueError).
Proof.
  destruct (CommonStock_init_spec sym ld par) as [Hok Hbad].
  assert (Hdec : ((1 <= len sym <= 10)%nat /\ 0 < par /\ 0 <= ld) \/
                 ~ ((1 <= len sym <= 10)%nat /\ 0 < par /\ 0 <= ld)) by lia.
  destruct Hdec as [H|H].
  - rewrite (Hok H). split.
    + intros s. split.
      * intros E. injection E as <-. tauto.
      * intros (_ & _ & _ & ->). reflexivity.
    + intros e E. discriminate E.
  - rewrite (Hbad H). split.
    + intros s. split; [intros E; discriminate E|]. intros (H1 & H2 & H3 & _). tauto.
    + intros e E. injection E as <-. reflexivity.
Qed.

Lemma digits2_pos_bounds (m : positive) :
  2 ^ (Zpos (digits2_pos m) - 1) <= Zpos m < 2 ^ Zpos (digits2_pos m).
Proof.
  induction m as [m IH|m IH|]; cbn [digits2_pos].
  - rewrite Pos2Z.inj_succ.
    replace (Z.succ (Zpos (digits2_pos m)) - 1) with ((Zpos (digits2_pos m) - 1) + 1) by lia.
    replace (Z.succ (Zpos (digits2_pos m))) with (Zpos (digits2_pos m) + 1) by lia.
    rewrite !Z.pow_add_r by lia. change (2 ^ 1) with 2. lia.
  - rewrite Pos2Z.inj_succ.
    replace (Z.succ (Zpos (digits2_pos m)) - 1) with ((Zpos (digits2_pos m) - 1) + 1) by lia.
    replace (Z.succ (Zpos (digits2_pos m))) with (Zpos (digits2_pos m) + 1) by lia.
    rewrite !Z.pow_add_r by lia. change (2 ^ 1) with 2. lia.
  - simpl. lia.
Qed.

Lemma pow2_pos (k : Z) : 0 <= k -> 0 < 2 ^ k.
Proof. intros. apply Z.pow_pos_nonneg; lia. Qed.

Lemma at_most_one_small (m : positive) (e : Z) :
  -1074 <= e < -52 -> Zpos m < 2 ^ 53 -> at_most_one m e.
Proof.
  intros He Hm. unfold at_most_one.
  pose proof (pow2_pos (e + 1074) ltac:(lia)) as HP.
  assert (H1 : Z.pos m * 2 ^ (e + 1074) <= 2 ^ 53 * 2 ^ (e + 1074))
    by (apply Z.mul_le_mono_nonneg_r; lia).
  rewrite <- Z.pow_add_r in H1 by lia.
  assert (H2 : 2 ^ (53 + (e + 1074)) <= 2 ^ 1074) by (apply Z.pow_le_mono_r; lia).
  eapply Z.le_trans; [exact H1|exact H2].
Qed.

Lemma at_most_one_at_52 (m : positive) :
  at_most_one m (-52) <-> Z.pos m <= 4503599627370496.
Proof.
  unfold at_most_one.
  assert (E : 2 ^ 1074 = 2 ^ 52 * 2 ^ (-52 + 1074)).
  { rewrite <- Z.pow_add_r by lia. apply (f_equal (Z.pow 2)). lia. }
  rewrite E. clear E.
  assert (E52 : 2 ^ 52 = 4503599627370496) by reflexivity.
  rewrite E52. clear E52.
  pose proof (pow2_pos (-52 + 1074) ltac:(lia)) as HP.
  set (P := 2 ^ (-52 + 1074)) in *. clearbody P.
  split; intros H.
  - apply (proj2 (Z.mul_le_mono_pos_r (Z.pos m) 4503599627370496 P HP)) in H.
    exact H.
  - apply Z.mul_le_mono_nonneg_r; [apply Z.lt_le_incl; exact HP|exact H].
Qed.

Lemma at_most_one_large (m : positive) (e : Z) :
  -52 < e -> 2 ^ 52 <= Zpos m -> ~ at_most_one m e.
Proof.
  intros He Hm. unfold at_most_one. intros Hle.
  pose proof (pow2_pos (e + 1074) ltac:(lia)) as HP.
  assert (H1 : 2 ^ 52 * 2 ^ (e + 1074) <= Z.pos m * 2 ^ (e + 1074))
    by (apply Z.mul_le_mono_nonneg_r; lia).
  rewrite <- Z.pow_add_r in H1 by lia.
  assert (H2 : 2 ^ 1074 < 2 ^ (52 + (e + 1074))) by (apply Z.pow_lt_mono_r; lia).
  apply (Z.lt_irrefl (2 ^ 1074)).
  eapply Z.lt_le_trans; [exact H2|]. eapply Z.le_trans; [exact H1|exact Hle].
Qed.

Lemma leb_one_at_52 (m : positive) :
  SFleb (S754_finite false m (-52)) float_one = true <-> at_most_one m (-52).
Proof.
  unfold SFleb, float_one. cbn [SFcompare]. rewrite Z.compare_refl.
  pose proof (at_most_one_at_52 m) as H52.
  destruct (Pos.compare_cont Eq m 4503599627370496) eqn:Ec.
  - split; [intros _|reflexivity]. apply H52.
    apply Pos.compare_eq in Ec. rewrite Ec. apply Z.le_refl.
  - split; [intros _|reflexivity]. apply H52. apply Z.lt_le_incl. exact Ec.
  - split; [intros H; discriminate H|]. intros Hle.
    apply H52 in Hle. exfalso. apply Hle. exact Ec.
Qed.

(** [pct <= 1.0] on a positive binary64 number, read on its value. *)
Lemma leb_one_value (m : positive) (e : Z) :
  SpecFloat.bounded 53 1024 m e = true ->
  (SFleb (S754_finite false m e) float_one = true <-> at_most_one m e).
Proof.
  intros Hv. unfold SpecFloat.bounded, SpecFloat.canonical_mantissa, SpecFloat.fexp, SpecFloat.emin in Hv.
  apply andb_true_iff in Hv. destruct Hv as [Hc He].
  apply Z.eqb_eq in Hc. apply Z.leb_le in He.
  pose proof (digits2_pos_bounds m) as [Hm1 Hm2].
  set (D := Zpos (digits2_pos m)) in *.
  assert (HD : 1 <= D) by (unfold D; lia).
  assert (Hcan : -1074 <= e /\ D <= 53 /\ (D = 53 \/ e = -1074)) by lia.
  destruct Hcan as (He1 & HD53 & Hnorm).
  assert (Hm53 : Zpos m < 2 ^ 53).
  { eapply Z.lt_le_trans; [exact Hm2|]. apply Z.pow_le_mono_r; lia. }
  clear Hc He Hm2.
  destruct (Z_dec e (-52)) as [[E|E]|E].
  - (* a smaller exponent: the value is below 1 *)
    assert (Ec : (e ?= -52) = Lt) by (apply Z.compare_lt_iff; exact E).
    unfold SFleb, float_one. cbn [SFcompare]. rewrite Ec.
    split; [intros _|reflexivity].
    apply at_most_one_small; [lia|exact Hm53].
  - (* a larger exponent: the number is normal and at least 2 *)
    assert (Ec : (e ?= -52) = Gt) by (apply Z.compare_gt_iff; lia).
    unfold SFleb, float_one. cbn [SFcompare]. rewrite Ec.
    split; [intros H; discriminate H|]. intros Hle. exfalso.
    assert (Hm52 : 2 ^ 52 <= Z.pos m).
    { replace 52 with (D - 1) by lia. exact Hm1. }
    apply (at_most_one_large m e); [lia|exact Hm52|exact Hle].
  - (* the exponent of 1.0: compare the mantissas *)
    subst e. apply leb_one_at_52.
Qed.

(** The test [0 < pct <= 1.0] on a binary64 number, read on its value. *)
Lemma rate_check_value (pct : float) :
  valid_binary 53 1024 pct = true ->
  (SFltb float_zero pct && SFleb pct float_one = true <->
   exists m e, pct = S754_finite false m e /\ at_most_one m e).
Proof.
  intros Hv. destruct pct as [s|s| |s m e].
  - split; [intros H; discriminate H|intros (m & e & H & _); discriminate H].
  - split; [|intros (m & e & H & _); discriminate H].
    destruct s; intros H; discriminate H.
  - split; [intros H; discriminate H|intros (m & e & H & _); discriminate H].
  - cbn [valid_binary] in Hv. destruct s.
    + split; [intros H; discriminate H|].
      intros (m' & e' & H & _). discriminate H.
    + change (SFltb float_zero (S754_finite false m e)) with true. cbn [andb].
      rewrite (leb_one_value m e Hv). split.
      * intros H. exists m, e. split; [reflexivity|exact H].
      * intros (m' & e' & H & Hle). injection H as <- <-. exact Hle.
Qed.

(** X2.  [PreferredStock(symbol, last_dividend, rate, par_value)], for a
    binary64 rate, returns a stock exactly when the symbol has 1 to 10
    characters (code points, not bytes), the par value is positive and the
    rate is a positive finite number of value at most 1; the last dividend
    is stored whatever it is.  Every other input raises ValueError. *)
Theorem PreferredStock_init_iff (sym : string) (ld : Z) (pct : float) (par : Z) :
  valid_binary 53 1024 pct = true ->
  (forall s, PreferredStock_init sym ld pct par = Ok s <->
             (1 <= len sym <= 10)%nat /\ 0 < par /\
             (exists m e, pct = S754_finite false m e /\ at_most_one m e) /\
             s = mkStock sym par ld (PreferredStock pct) []) /\
  (forall e, PreferredStock_init sym ld pct par = Raise e -> e = ValueError).
Proof.
  intros Hv. pose proof (rate_check_value pct Hv) as Hrate.
  destruct (PreferredStock_init_spec sym ld par pct) as [Hok Hbad]. cbv zeta in Hok, Hbad.
  set (chk := SFltb float_zero pct && SFleb pct float_one) in *.
  assert (Hdec : ((1 <= len sym <= 10)%nat /\ 0 < par /\ chk = true) \/
                 ~ ((1 <= len sym <= 10)%nat /\ 0 < par /\ chk = true)).
  { destruct chk; [|right; intros (_ & _ & H); discriminate H].
    assert (Hd : ((1 <= len sym <= 10)%nat /\ 0 < par) \/
                 ~ ((1 <= len sym <= 10)%nat /\ 0 < par)) by lia.
    destruct Hd as [Hd|Hd]; [left|right]; tauto. }
  destruct Hdec as [H|H].
  - rewrite (Hok H). split.
    + intros s. split.
      * intros E. injection E as <-. destruct H as (H1 & H2 & H3).
        apply Hrate in H3. tauto.
      * intros (_ & _ & _ & ->). reflexivity.
    + intros e E. discriminate E.
  - rewrite (Hbad H). split.
    + intros s. split; [intros E; discriminate E|].
      intros (H1 & H2 & H3 & _). apply Hrate in H3. tauto.
    + intros e E. injection E as <-. reflexivity.
Qed.

Lemma PreferredStock_init_iff_witness :
  valid_binary 53 1024 rate_0_02 = true /\
  PreferredStock_init "GIN" 8 rate_0_02 10000
  = Ok (mkStock "GIN" 10000 8 (PreferredStock rate_0_02) []).
Proof.
  split; [reflexivity|].
  apply (proj1 (PreferredStock_init_iff "GIN" 8 rate_0_02 10000 eq_refl)).
  split; [simpl; lia|]. split; [lia|]. split; [|reflexivity].
  exists 5764607523034235%positive, (-58). split; [reflexivity|].
  unfold at_most_one. vm_compute. discriminate.
Defined.

(** ** The ledger *)

Lemma record_trade_cases (now : Datetime.datetime) (s : Stock) (q : Z)
    (i : TradeIndicator) (p : Z) :
  ((q <= 0 \/ p <= 0) /\ record_trade now s q i p = (Raise ValueError, s)) \/
  (0 < q /\ 0 < p /\ 10 ^ 4300 <= q /\
   record_trade now s q i p = (Raise ValueError, appended now s q i p)) \/
  (0 < q < 10 ^ 4300 /\ 0 < p /\ 100 * (2 ^ 1024 - 2 ^ 970) <= p /\
   record_trade now s q i p = (Raise OverflowError, appended now s q i p)) \/
  (0 < q < 10 ^ 4300 /\ 0 < p /\ p < 100 * (2 ^ 1024 - 2 ^ 970) /\
   record_trade now s q i p = (Ok tt, appended now s q i p)).
Proof.
  unfold record_trade, appended, with_trades, int_truediv_overflows,
    str_int_raises, int_max_str_digits.
  set (L := 10 ^ 4300). rewrite (Z.mul_comm (2 ^ 1024 - 2 ^ 970) 100).
  set (B := 100 * (2 ^ 1024 - 2 ^ 970)). clearbody L B.
  destruct (Z.leb_spec q 0) as [Hq|Hq]; [left; split; [left; exact Hq|reflexivity]|].
  destruct (Z.leb_spec p 0) as [Hp|Hp]; [left; split; [right; exact Hp|reflexivity]|].
  cbn [orb]. right. rewrite (Z.abs_eq q (Z.lt_le_incl _ _ Hq)).
  destruct (Z.leb_spec L q) as [Hs|Hs].
  { left. split; [exact Hq|]. split; [exact Hp|]. split; [exact Hs|reflexivity]. }
  right.
  destruct (Z.leb_spec B p) as [Ho|Ho]; [left|right];
    (split; [split; [exact Hq|exact Hs]|]); (split; [exact Hp|]);
    (split; [exact Ho|reflexivity]).
Qed.

(** The stock after the call: untouched when the arguments are rejected,
    grown by the one trade otherwise, whatever the log line does then. *)
Lemma record_trade_stock (now : Datetime.datetime) (s : Stock) (q : Z)
    (i : TradeIndicator) (p : Z) :
  ((q <= 0 \/ p <= 0) /\ snd (record_trade now s q i p) = s) \/
  (0 < q /\ 0 < p /\ snd (record_trade now s q i p) = appended now s q i p).
Proof.
  destruct (record_trade_cases now s q i p)
    as [(H & E) | [(Hq & Hp & _ & E) | [(Hq & Hp & _ & E) | (Hq & Hp & _ & E)]]];
    rewrite E; cbn [snd]; [left; split; [exact H|reflexivity]| | |];
    right; (split; [lia|]); (split; [exact Hp|reflexivity]).
Qed.

(** X3.  [record_trade] returns normally exactly when the quantity and the
    price are positive, the quantity has at most 4300 digits, the limit of
    [str] in the log line, and the price is below 100 * (2^1024 - 2^970),
    the range of the float the log line formats.  It raises ValueError
    exactly on a non-positive quantity or price or a quantity of more than
    4300 digits, OverflowError exactly when the quantity passes and the
    price is beyond the float range, and nothing else.  The stock is as it
    was exactly when the quantity or the price is not positive; in every
    other case, an exception of the log line included, it holds the old
    ledger followed by the one new trade, stamped with the clock reading. *)
Theorem record_trade_outcomes (now : Datetime.datetime) (s : Stock) (q : Z)
    (i : TradeIndicator) (p : Z) :
  let r := record_trade now s q i p in
  (fst r = Ok tt <->
   0 < q < 10 ^ 4300 /\ 0 < p < 100 * (2 ^ 1024 - 2 ^ 970)) /\
  (fst r = Raise ValueError <-> q <= 0 \/ p <= 0 \/ 10 ^ 4300 <= q) /\
  (fst r = Raise OverflowError <->
   0 < q < 10 ^ 4300 /\ 100 * (2 ^ 1024 - 2 ^ 970) <= p) /\
  (forall e, fst r = Raise e -> e = ValueError \/ e = OverflowError) /\
  (q <= 0 \/ p <= 0 -> snd r = s) /\
  (0 < q /\ 0 < p -> snd r = appended now s q i p).
Proof.
  cbv zeta.
  assert (Hb : 0 < 100 * (2 ^ 1024 - 2 ^ 970)) by (vm_compute; reflexivity).
  assert (H4 : 0 < 10 ^ 4300)
    by (apply Z.pow_pos_nonneg; [reflexivity|intros X; discriminate X]).
  pose proof (record_trade_cases now s q i p) as HC.
  set (B := 100 * (2 ^ 1024 - 2 ^ 970)) in *.
  set (L := 10 ^ 4300) in *. clearbody L B.
  destruct HC
    as [(H & E) | [(Hq & Hp & Ho & E) | [(Hq & Hp & Ho & E) | (Hq & Hp & Ho & E)]]];
    rewrite E; cbn [fst snd].
  - split; [split; [intros X; discriminate X|lia]|].
    split; [split; [lia|reflexivity]|].
    split; [split; [intros X; discriminate X|lia]|].
    split; [intros e X; left; injection X as <-; reflexivity|].
    split; [reflexivity|lia].
  - split; [split; [intros X; discriminate X|lia]|].
    split; [split; [lia|reflexivity]|].
    split; [split; [intros X; discriminate X|lia]|].
    split; [intros e X; left; injection X as <-; reflexivity|].
    split; [lia|reflexivity].
  - split; [split; [intros X; discriminate X|lia]|].
    split; [split; [intros X; discriminate X|lia]|].
    split; [split; [lia|reflexivity]|].
    split; [intros e X; right; injection X as <-; reflexivity|].
    split; [lia|reflexivity].
  - split; [split; [lia|reflexivity]|].
    split; [split; [intros X; discriminate X|lia]|].
    split; [split; [intros X; discriminate X|lia]|].
    split; [intros e X; discriminate X|].
    split; [lia|reflexivity].
Qed.

(** X4.  Whatever its outcome, [record_trade] leaves the symbol, the par
    value, the last dividend and the kind of the stock alone, and never
    removes, reorders or edits a trade: the ledger afterwards is the ledger
    before, followed by at most one trade, which is the one passed in. *)
Theorem record_trade_append_only (now : Datetime.datetime) (s : Stock) (q : Z)
    (i : TradeIndicator) (p : Z) :
  let s' := snd (record_trade now s q i p) in
  symbol s' = symbol s /\
  _par_value_pennies s' = _par_value_pennies s /\
  last_dividend_pennies s' = last_dividend_pennies s /\
  class s' = class s /\
  (_trades s' = _trades s \/ _trades s' = _trades s ++ [mkTrade now q i p]).
Proof.
  cbv zeta.
  destruct (record_trade_stock now s q i p) as [(H & E) | (Hq & Hp & E)]; rewrite E;
    unfold appended, with_trades; cbn [symbol _par_value_pennies last_dividend_pennies
                                         class _trades]; auto 6.
Qed.

Lemma record_trade_ledger_ok (now : Datetime.datetime) (s : Stock) (q : Z)
    (i : TradeIndicator) (p : Z) :
  ledger_ok (_trades s) -> ledger_ok (_trades (snd (record_trade now s q i p))).
Proof.
  intros Hok.
  destruct (record_trade_stock now s q i p) as [(H & E) | (Hq & Hp & E)]; rewrite E;
    [exact Hok|].
  unfold appended, with_trades; cbn [_trades]; apply Forall_app; split;
    try exact Hok; constructor; cbn [quantity price_pennies]; auto.
Qed.

Lemma init_trades_nil (s : Stock) :
  (exists sym ld par, CommonStock_init sym ld par = Ok s) \/
  (exists sym ld pct par, PreferredStock_init sym ld pct par = Ok s) ->
  _trades s = [].
Proof.
  intros [(sym & ld & par & E)|(sym & ld & pct & par & E)].
  - unfold CommonStock_init in E. destruct (Stock_init sym par); [|discriminate E].
    cbn [bind] in E. destruct (ld <? 0); [discriminate E|].
    injection E as <-. reflexivity.
  - unfold PreferredStock_init in E. destruct (Stock_init sym par); [|discriminate E].
    cbn [bind] in E. destruct (negb _); [discriminate E|].
    injection E as <-. reflexivity.
Qed.

Lemma reachable_stock_ledger (s : Stock) : reachable_stock s -> ledger_ok (_trades s).
Proof.
  induction 1 as [sym ld par s E|sym ld pct par s E|now s q i p _ IH].
  - rewrite (init_trades_nil s); [constructor|]. left. eauto.
  - rewrite (init_trades_nil s); [constructor|]. right. eauto.
  - apply record_trade_ledger_ok. exact IH.
Qed.

(** X5.  Every stock built by a constructor and then traded, by calls of
    [record_trade] that succeed or fail in any order, keeps a symbol of 1 to
    10 characters (code points, not bytes) and a positive par value, and its
    ledger holds only trades with a positive quantity and a positive price;
    a common stock keeps a non-negative last dividend. *)
Theorem reachable_stock_invariant (s : Stock) :
  reachable_stock s ->
  (1 <= len (symbol s) <= 10)%nat /\
  0 < _par_value_pennies s /\
  ledger_ok (_trades s) /\
  (class s = CommonStock -> 0 <= last_dividend_pennies s).
Proof.
  induction 1 as [sym ld par s E|sym ld pct par s E|now s q i p _ IH].
  - destruct (CommonStock_init_spec sym ld par) as [Hok Hbad].
    assert (Hd : ((1 <= len sym <= 10)%nat /\ 0 < par /\ 0 <= ld) \/
                 ~ ((1 <= len sym <= 10)%nat /\ 0 < par /\ 0 <= ld)) by lia.
    destruct Hd as [Hd|Hd].
    + rewrite (Hok Hd) in E. injection E as <-. cbn.
      destruct Hd as (H1 & H2 & H3).
      split; [exact H1|]. split; [exact H2|]. split; [constructor|]. intros _. exact H3.
    + rewrite (Hbad Hd) in E. discriminate E.
  - destruct (PreferredStock_init_spec sym ld par pct) as [Hok Hbad]. cbv zeta in Hok, Hbad.
    assert (Hd : ((1 <= len sym <= 10)%nat /\ 0 < par /\
                  SFltb float_zero pct && SFleb pct float_one = true) \/
                 ~ ((1 <= len sym <= 10)%nat /\ 0 < par /\
                    SFltb float_zero pct && SFleb pct float_one = true)).
    { destruct (SFltb float_zero pct && SFleb pct float_one);
        [|right; intros (_ & _ & X); discriminate X].
      assert (Hd : ((1 <= len sym <= 10)%nat /\ 0 < par) \/
                   ~ ((1 <= len sym <= 10)%nat /\ 0 < par)) by lia.
      destruct Hd; [left|right]; tauto. }
    destruct Hd as [Hd|Hd].
    + rewrite (Hok Hd) in E. injection E as <-. cbn.
      destruct Hd as (H1 & H2 & _).
      split; [exact H1|]. split; [exact H2|]. split; [constructor|].
      intros X; discriminate X.
    + rewrite (Hbad Hd) in E. discriminate E.
  - destruct IH as (H1 & H2 & H3 & H4).
    pose proof (record_trade_ledger_ok now s q i p H3) as Hl.
    destruct (record_trade_stock now s q i p) as [(H & E) | (Hq & Hp & E)];
      rewrite E in Hl |- *;
      (split; [exact H1|]); (split; [exact H2|]); (split; [exact Hl|exact H4]).
Qed.

Lemma TEA_traded_reachable : reachable_stock TEA_traded.
Proof.
  unfold TEA_traded. apply reach_trade. apply reach_trade.
  apply (reach_common "TEA" 0 10000). reflexivity.
Qed.

Lemma reachable_stock_invariant_witness :
  reachable_stock TEA_traded /\
  (1 <= len (symbol TEA_traded) <= 10)%nat /\
  0 < _par_value_pennies TEA_traded /\
  ledger_ok (_trades TEA_traded) /\
  (class TEA_traded = CommonStock -> 0 <= last_dividend_pennies TEA_traded).
Proof.
  split; [exact TEA_traded_reachable|].
  exact (reachable_stock_invariant TEA_traded TEA_traded_reachable).
Defined.

(** ** The volume-weighted price *)

Lemma vwsp_unfold (now : Datetime.datetime) (s : Stock) (w : Z) :
  0 <= now - w * 60000000 <= Datetime.max ->
  volume_weighted_stock_price now s w
  = vwap_of_recent (filter (in_window now w) (_trades s)).
Proof.
  intros Hc. unfold volume_weighted_stock_price.
  rewrite (minus_minutes_ok _ _ Hc). reflexivity.
Qed.

Lemma ledger_ok_filter (f : Trade -> bool) (l : list Trade) :
  ledger_ok l -> ledger_ok (filter f l).
Proof.
  unfold ledger_ok. rewrite !Forall_forall. intros H t Ht.
  apply filter_In in Ht. apply H. tauto.
Qed.

(** X6.  When the cutoff is a date, some trade lies in the window, the
    trades in the window have positive quantities and prices and their
    weighted sum [sum(quantity * price)] is below 10^27 pennies, the price
    returned is that sum divided by [sum(quantity)], rounded half-up to a
    whole penny and written with two fractional digits: the 28-digit
    quotient in between loses nothing. *)
Theorem vwsp_half_up (now : Datetime.datetime) (s : Stock) (w : Z) :
  let recent := filter (in_window now w) (_trades s) in
  0 <= now - w * 60000000 <= Datetime.max ->
  recent <> [] -> ledger_ok recent -> weighted_sum recent < 10 ^ 27 ->
  volume_weighted_stock_price now s w
  = Ok (Some (mkDec false (half_up_div (weighted_sum recent) (total_quantity recent)) (-2))).
Proof.
  cbv zeta. intros Hc Hne Hok HW. rewrite (vwsp_unfold now s w Hc).
  apply vwap_of_recent_exact; assumption.
Qed.

Lemma vwsp_half_up_witness :
  let now := sample_now + 3000 in
  0 <= now - 5 * 60000000 <= Datetime.max /\
  volume_weighted_stock_price now TEA_traded 5 = Ok (Some (mkDec false 10003 (-2))).
Proof.
  cbv zeta. split; [vm_compute; split; intros X; discriminate X|].
  refine (vwsp_half_up (sample_now + 3000) TEA_traded 5 _ _ _ _).
  - vm_compute; split; intros X; discriminate X.
  - vm_compute. intros X; discriminate X.
  - vm_compute. repeat constructor.
  - vm_compute. reflexivity.
Defined.

(** X7.  On a stock built by a constructor and traded through
    [record_trade], a price that [volume_weighted_stock_price] returns is at
    least 0.01 and has exactly two fractional digits, for every clock
    reading, window and size of the numbers involved. *)
Theorem vwsp_at_least_a_penny (now : Datetime.datetime) (s : Stock) (w : Z) (d : Decimal) :
  reachable_stock s ->
  volume_weighted_stock_price now s w = Ok (Some d) ->
  dsign d = false /\ dexp d = -2 /\ 1 <= dcoef d.
Proof.
  intros Hr H. apply reachable_stock_ledger in Hr.
  unfold volume_weighted_stock_price in H.
  destruct (Datetime.minus_minutes now w) as [cutoff|e]; [|discriminate H].
  cbn [bind] in H.
  apply (vwap_of_recent_positive (recent_trades cutoff (_trades s))); [|exact H].
  apply ledger_ok_filter. exact Hr.
Qed.

Lemma vwsp_at_least_a_penny_witness :
  reachable_stock TEA_traded /\
  volume_weighted_stock_price (sample_now + 3000) TEA_traded 5
  = Ok (Some (mkDec false 10003 (-2))) /\
  1 <= 10003.
Proof.
  split; [exact TEA_traded_reachable|]. split; [vm_compute; reflexivity|].
  exact (proj2 (proj2 (vwsp_at_least_a_penny (sample_now + 3000) TEA_traded 5
                         (mkDec false 10003 (-2)) TEA_traded_reachable eq_refl))).
Defined.

Lemma weighted_sum_between (l : list Trade) (lo hi : Z) :
  ledger_ok l ->
  (forall t, In t l -> lo <= price_pennies t <= hi) ->
  lo * total_quantity l <= weighted_sum l <= hi * total_quantity l.
Proof.
  unfold total_quantity, weighted_sum.
  induction 1 as [|t l [Hq Hp] _ IH]; intros Hb; [cbn; lia|].
  cbn [map]. rewrite !sum_Z_cons.
  specialize (IH (fun t' Ht' => Hb t' (or_intror Ht'))).
  pose proof (Hb t (or_introl eq_refl)) as Ht.
  assert (lo * quantity t <= quantity t * price_pennies t).
  { rewrite (Z.mul_comm (quantity t)). apply Z.mul_le_mono_nonneg_r; lia. }
  assert (quantity t * price_pennies t <= hi * quantity t).
  { rewrite (Z.mul_comm (quantity t)). apply Z.mul_le_mono_nonneg_r; lia. }
  lia.
Qed.

Lemma half_up_div_between (n d lo hi : Z) :
  0 < d -> lo * d <= n <= hi * d -> lo <= half_up_div n d <= hi.
Proof.
  intros Hd [H1 H2]. unfold half_up_div. split.
  - apply Z.div_le_lower_bound; lia.
  - assert (H : (2 * n + d) / (2 * d) < hi + 1); [|lia].
    apply Z.div_lt_upper_bound; lia.
Qed.

(** X8.  Under the conditions of X6 the price lies between the lowest and
    the highest trade price of the window; when all trades of the window
    were made at one price, it is that price. *)
Theorem vwsp_between_prices (now : Datetime.datetime) (s : Stock) (w lo hi : Z) :
  let recent := filter (in_window now w) (_trades s) in
  0 <= now - w * 60000000 <= Datetime.max ->
  recent <> [] -> ledger_ok recent -> weighted_sum recent < 10 ^ 27 ->
  (forall t, In t recent -> lo <= price_pennies t <= hi) ->
  exists K, volume_weighted_stock_price now s w = Ok (Some (mkDec false K (-2))) /\
            lo <= K <= hi.
Proof.
  cbv zeta. intros Hc Hne Hok HW Hb. rewrite (vwsp_unfold now s w Hc).
  rewrite (vwap_of_recent_exact _ Hne Hok HW).
  eexists. split; [reflexivity|].
  destruct (ledger_sums _ Hok) as [_ HT]. specialize (HT Hne).
  apply half_up_div_between; [exact HT|].
  apply weighted_sum_between; assumption.
Qed.

Lemma vwsp_between_prices_witness :
  let now := sample_now + 3000 in
  0 <= now - 5 * 60000000 <= Datetime.max /\
  exists K, volume_weighted_stock_price now TEA_traded 5 = Ok (Some (mkDec false K (-2))) /\
            9550 <= K <= 10230.
Proof.
  cbv zeta. split; [vm_compute; split; intros X; discriminate X|].
  refine (vwsp_between_prices (sample_now + 3000) TEA_traded 5 9550 10230 _ _ _ _ _).
  - vm_compute; split; intros X; discriminate X.
  - vm_compute. intros X; discriminate X.
  - vm_compute. repeat constructor.
  - vm_compute. reflexivity.
  - intros t Ht. vm_compute in Ht.
    destruct Ht as [<-|[<-|[]]]; vm_compute; split; intros X; discriminate X.
Defined.

Lemma sum_Z_perm (l l' : list Z) : Permutation l l' -> sum_Z l = sum_Z l'.
Proof.
  induction 1 as [|x l l' _ IH|x y l|l l' l'' _ IH1 _ IH2].
  - reflexivity.
  - rewrite !sum_Z_cons. lia.
  - rewrite !sum_Z_cons. lia.
  - lia.
Qed.

Lemma filter_perm {A : Type} (f : A -> bool) (l l' : list A) :
  Permutation l l' -> Permutation (filter f l) (filter f l').
Proof.
  induction 1 as [|x l l' _ IH|x y l|l l' l'' _ IH1 _ IH2]; cbn [filter].
  - constructor.
  - destruct (f x); [constructor|]; exact IH.
  - destruct (f x), (f y); try apply Permutation_refl. constructor.
  - eapply Permutation_trans; eassumption.
Qed.

Lemma map_key_filter (cutoff : Z) (l : list Trade) :
  map trade_key (recent_trades cutoff l)
  = filter (fun k => cutoff <=? fst (fst k)) (map trade_key l).
Proof.
  unfold recent_trades. induction l as [|t l IH]; [reflexivity|].
  cbn [filter map trade_key fst]. destruct (cutoff <=? timestamp t); cbn [map]; now rewrite IH.
Qed.

Lemma vwap_of_recent_keys (l l' : list Trade) :
  Permutation (map trade_key l) (map trade_key l') ->
  vwap_of_recent l = vwap_of_recent l'.
Proof.
  intros Hp.
  assert (HT : sum_Z (map quantity l) = sum_Z (map quantity l')).
  { assert (E : forall x, map quantity x = map (fun k => snd (fst k)) (map trade_key x))
      by (intros x; rewrite map_map; reflexivity).
    rewrite !E. apply sum_Z_perm. apply Permutation_map. exact Hp. }
  assert (HW : sum_Z (map (fun t => quantity t * price_pennies t) l)
               = sum_Z (map (fun t => quantity t * price_pennies t) l')).
  { assert (E : forall x, map (fun t => quantity t * price_pennies t) x
                           = map (fun k => snd (fst k) * snd k) (map trade_key x))
      by (intros x; rewrite map_map; reflexivity).
    rewrite !E. apply sum_Z_perm. apply Permutation_map. exact Hp. }
  apply Permutation_length in Hp. rewrite !length_map in Hp.
  unfold vwap_of_recent.
  destruct l as [|t l]; destruct l' as [|t' l']; try discriminate Hp; [reflexivity|].
  rewrite HT, HW. reflexivity.
Qed.

(** X9.  The price depends on the ledger only through the timestamps,
    quantities and prices it holds, in any order: two ledgers with the same
    trades up to their order and their BUY/SELL indicators give the same
    result (the same price, the same absence of one, or the same error). *)
Theorem vwsp_order_and_indicator (now : Datetime.datetime) (s s' : Stock) (w : Z) :
  Permutation (map trade_key (_trades s)) (map trade_key (_trades s')) ->
  volume_weighted_stock_price now s w = volume_weighted_stock_price now s' w.
Proof.
  intros Hp. unfold volume_weighted_stock_price.
  destruct (Datetime.minus_minutes now w) as [cutoff|e]; [|reflexivity].
  cbn [bind]. apply vwap_of_recent_keys. rewrite !map_key_filter.
  apply filter_perm. exact Hp.
Qed.

Lemma vwsp_order_and_indicator_witness :
  let t1 := mkTrade (sample_now + 1000) 1000 BUY 9550 in
  let t2 := mkTrade (sample_now + 2000) 2000 SELL 10230 in
  let t1' := mkTrade (sample_now + 1000) 1000 SELL 9550 in
  Permutation (map trade_key [t1; t2]) (map trade_key [t2; t1']) /\
  volume_weighted_stock_price (sample_now + 3000) (with_trades TEA [t1; t2]) 5
  = volume_weighted_stock_price (sample_now + 3000) (with_trades TEA [t2; t1']) 5.
Proof.
  cbv zeta. split; [apply perm_swap|].
  apply vwsp_order_and_indicator. apply perm_swap.
Defined.

(** ** The price-earnings ratio *)

Lemma fix_raises (d : Decimal) (e : exn) : _fix d = Raise e -> e = DecimalOverflow.
Proof.
  unfold _fix. destruct (dcoef d =? 0); [intros H; discriminate H|].
  destruct (Etop <? _); [intros H; injection H as <-; reflexivity|].
  destruct (dexp d <? _); [|intros H; discriminate H].
  cbv zeta. destruct (Etop <? _); intros H; [injection H as <-; reflexivity|discriminate H].
Qed.

Lemma div_raises (x y : Decimal) (e : exn) :
  dcoef y <> 0 -> div x y = Raise e -> e = DecimalOverflow.
Proof.
  intros Hy. unfold div. destruct (Z.eqb_spec (dcoef y) 0) as [|_]; [contradiction|].
  destruct (dcoef x =? 0); [apply fix_raises|]. cbv zeta.
  destruct (negb _); [apply fix_raises|].
  destruct (strip_zeros _ _ _). apply fix_raises.
Qed.

(** X10.  [pe_ratio] gives no result exactly when the price is not positive
    or the last dividend is zero, so it never divides by zero: the only
    exception it can raise is the overflow of the Decimal exponent. *)
Theorem pe_ratio_none_iff (s : Stock) (p : Z) :
  (pe_ratio s p = Ok None <-> p <= 0 \/ last_dividend_pennies s = 0) /\
  (forall e, pe_ratio s p = Raise e -> e = DecimalOverflow).
Proof.
  unfold pe_ratio.
  destruct (Z.leb_spec p 0) as [Hp|Hp]; cbn [orb].
  { split; [split; [lia|reflexivity]|intros e H; discriminate H]. }
  destruct (Z.eqb_spec (last_dividend_pennies s) 0) as [Hl|Hl].
  { split; [split; [lia|reflexivity]|intros e H; discriminate H]. }
  assert (Hy : dcoef (of_int (last_dividend_pennies s)) <> 0) by (cbn; lia).
  destruct (div (of_int p) (of_int (last_dividend_pennies s))) as [d|e0] eqn:E; cbn [bind].
  - split; [split; [intros H; discriminate H|lia]|intros e H; discriminate H].
  - split; [split; [intros H; discriminate H|lia]|].
    intros e H. injection H as <-. exact (div_raises _ _ _ Hy E).
Qed.

(** X11.  When the price is a multiple [k] of the magnitude of the last
    dividend, with [k] below 10^28, [pe_ratio] returns the integer [k]
    itself, exactly and with exponent 0, negative when the dividend is. *)
Theorem pe_ratio_exact_multiple (s : Stock) (k : Z) :
  last_dividend_pennies s <> 0 -> 0 < k < 10 ^ 28 ->
  pe_ratio s (k * Z.abs (last_dividend_pennies s))
  = Ok (Some (mkDec (last_dividend_pennies s <? 0) k 0)).
Proof.
  intros Hl Hk. pow10_consts. unfold pe_ratio.
  set (ld := last_dividend_pennies s) in *.
  set (b := Z.abs ld). assert (Hb : 0 < b) by (unfold b; lia).
  assert (Hp : 0 < k * b) by (apply Z.mul_pos_pos; lia).
  destruct (Z.leb_spec (k * b) 0) as [|_]; [lia|].
  destruct (Z.eqb_spec ld 0) as [|_]; [contradiction|]. cbn [orb].
  rewrite (of_int_pos (k * b) Hp).
  assert (Ey : of_int ld = mkDec (ld <? 0) b 0) by reflexivity.
  rewrite Ey.
  rewrite (div_unfold (mkDec false (k * b) 0) (mkDec (ld <? 0) b 0) Hp Hb).
  cbv zeta. cbn [dsign dcoef dexp xorb].
  destruct (ndigits_bounds b Hb) as (Hb1 & Hb2 & Hb3).
  destruct (ndigits_bounds (k * b) Hp) as (Ha1 & Ha2 & Ha3).
  assert (Hla : ndigits (k * b) <= ndigits b + 28).
  { apply ndigits_le; [|lia]. split; [exact Hp|].
    rewrite Z.pow_add_r by lia. rewrite Z.mul_comm.
    apply Z.mul_lt_mono_nonneg; lia. }
  assert (Hlb : ndigits b <= ndigits (k * b)).
  { assert (H : ndigits b - 1 < ndigits (k * b)); [|lia].
    apply pow10_lt_inv; try lia.
    assert (1 * b <= k * b) by (apply Z.mul_le_mono_nonneg_r; lia). lia. }
  unfold div_num, div_den. set (sh := div_shift (k * b) b).
  assert (Hsh : 1 <= sh <= 29) by (unfold sh, div_shift, prec; lia).
  destruct (Z.leb_spec 0 sh) as [_|]; [|lia].
  pose proof (pow10_pos sh ltac:(lia)) as HP.
  replace (k * b * 10 ^ sh) with (k * 10 ^ sh * b) by ring.
  rewrite Z.mod_mul by lia. rewrite Z.div_mul by lia. cbn [Z.eqb negb].
  replace (0 - 0 - (0 - 0 - sh)) with sh by lia.
  destruct (strip_zeros (Z.to_nat sh) (k * 10 ^ sh) (0 - 0 - sh)) as [qs es] eqn:Es.
  assert (Hq0 : 0 < k * 10 ^ sh) by (apply Z.mul_pos_pos; lia).
  destruct (strip_zeros_spec _ _ _ _ _ Hq0 Es) as (Hqs & Hes & Hqq).
  pose proof (strip_zeros_min (Z.to_nat sh) (k * 10 ^ sh) (0 - 0 - sh) sh k
                ltac:(lia) ltac:(lia) eq_refl) as Hmin.
  rewrite Es in Hmin. cbn [snd] in Hmin. rewrite Z2Nat.id in Hes by lia.
  assert (Ees : es = 0) by lia. subst es.
  replace (0 - (0 - 0 - sh)) with sh in Hqq by lia.
  assert (Eqs : qs = k).
  { apply Z.mul_cancel_r with (p := 10 ^ sh); [lia|]. symmetry. exact Hqq. }
  subst qs.
  destruct (fix_cases (xorb false (ld <? 0)) k 0 ltac:(lia)
              ltac:(unfold Etiny, Emin, prec; lia)) as [(_ & Efix) | (Hgt & _)].
  - cbn [xorb] in Efix. rewrite Efix.
    pose proof (ndigits_le k 28 ltac:(lia) ltac:(lia)) as Hlk.
    destruct (Z.ltb_spec Etop (ndigits k + 0 - prec)) as [Hov|_];
      [unfold Etop, Emax, prec in Hov; lia|].
    reflexivity.
  - pose proof (ndigits_le k 28 ltac:(lia) ltac:(lia)) as Hlk.
    unfold prec in Hgt. lia.
Qed.

Lemma pe_ratio_exact_multiple_witness :
  let GIN := mkStock "GIN" 10000 8 (PreferredStock rate_0_02) [] in
  last_dividend_pennies GIN <> 0 /\ 0 < 1250 < 10 ^ 28 /\
  pe_ratio GIN 10000 = Ok (Some (mkDec false 1250 0)).
Proof.
  cbv zeta. split; [intros X; discriminate X|].
  split; [vm_compute; split; reflexivity|].
  refine (pe_ratio_exact_multiple (mkStock "GIN" 10000 8 (PreferredStock rate_0_02) [])
            1250 _ _).
  - intros X; discriminate X.
  - vm_compute; split; reflexivity.
Defined.

(** ** The dividend yield *)

(** X12.  [dividend_yield] is exactly 0.00, with two fractional digits,
    whenever the price is not positive, whatever the stock; and at every
    price for a common stock whose last dividend is zero. *)
Theorem dividend_yield_zero (s : Stock) (p : Z) :
  p <= 0 \/ (class s = CommonStock /\ last_dividend_pennies s = 0) ->
  dividend_yield s p = Ok (mkDec false 0 (-2)).
Proof.
  intros H. unfold dividend_yield.
  destruct (Z.leb_spec p 0) as [Hp|Hp].
  { destruct (class s); reflexivity. }
  destruct H as [H|[Hc Hl]]; [lia|]. rewrite Hc, Hl.
  change (mul (of_int 0) (of_int 100)) with (Ok (mkDec false 0 0) : result Decimal).
  cbn [bind]. unfold quantize2, div. cbn [dsign dcoef dexp of_int].
  destruct (Z.eqb_spec (Z.abs p) 0) as [|_]; [lia|]. cbn [Z.eqb].
  destruct (Z.ltb_spec p 0) as [|_]; [lia|]. reflexivity.
Qed.

Lemma dividend_yield_zero_witness :
  (10000 <= 0 \/ (class TEA = CommonStock /\ last_dividend_pennies TEA = 0)) /\
  dividend_yield TEA 10000 = Ok (mkDec false 0 (-2)).
Proof.
  split; [right; split; reflexivity|].
  apply dividend_yield_zero. right. split; reflexivity.
Defined.

Lemma mul_int_exact (a b : Z) :
  0 < a -> 0 < b -> a * b < 10 ^ 28 ->
  mul (of_int a) (of_int b) = Ok (mkDec false (a * b) 0).
Proof.
  intros Ha Hb Hab. rewrite (of_int_pos a Ha), (of_int_pos b Hb).
  unfold mul. cbn [dsign dcoef dexp xorb]. change (0 + 0) with 0.
  assert (Hp : 0 < a * b) by (apply Z.mul_pos_pos; lia).
  destruct (fix_cases false (a * b) 0 Hp ltac:(unfold Etiny, Emin, prec; lia))
    as [(_ & Efix) | (Hgt & _)].
  - rewrite Efix. pose proof (ndigits_le (a * b) 28 ltac:(lia) ltac:(lia)) as Hl.
    destruct (Z.ltb_spec Etop (ndigits (a * b) + 0 - prec)) as [Hov|_];
      [unfold Etop, Emax, prec in Hov; lia|reflexivity].
  - pose proof (ndigits_le (a * b) 28 ltac:(lia) ltac:(lia)) as Hl.
    unfold prec in Hgt. lia.
Qed.

(** ** Quotients far below a penny *)

Lemma pow10_twice (c k m : Z) :
  0 <= c <= 10 ^ k -> 0 <= k -> k + 1 <= m -> 2 * c < 10 ^ m.
Proof.
  intros Hc Hk Hm.
  pose proof (pow10_pos k Hk) as Hpos.
  pose proof (pow10_succ k Hk) as Hs.
  pose proof (pow10_le (k + 1) m ltac:(lia)) as Hle.
  lia.
Qed.

(** [_fix] keeps a number below 10^-10 small: the result, possibly a
    subnormal or zero, is still below half a penny. *)
Lemma fix_tiny (s : bool) (c e : Z) :
  0 < c -> ndigits c + e <= -10 ->
  exists c' e', _fix (mkDec s c e) = Ok (mkDec s c' e') /\
                0 <= c' /\ e' < -2 /\ 2 * c' < 10 ^ (-2 - e').
Proof.
  intros Hc Hn.
  destruct (ndigits_bounds c Hc) as (Hn1 & Hlo & Hhi).
  unfold _fix. cbn [dsign dcoef dexp].
  destruct (Z.eqb_spec c 0) as [|_]; [lia|].
  set (n := ndigits c) in *.
  destruct (Z.ltb_spec Etop (n + e - prec)) as [H|_];
    [unfold Etop, Emax, prec in H; lia|].
  set (exp_min := Z.max (n + e - prec) Etiny).
  assert (Hem : exp_min <= -38) by (unfold exp_min, Etiny, Emin, prec; lia).
  assert (Hem2 : n + e - 28 <= exp_min) by (unfold exp_min, prec; lia).
  destruct (Z.ltb_spec e exp_min) as [Hlt|Hge].
  2:{ exists c, e. split; [reflexivity|]. split; [lia|]. split; [lia|].
      apply (pow10_twice c n); lia. }
  destruct (Z.ltb_spec (n + e - exp_min) 0) as [Hd|Hd].
  - replace (exp_min - (exp_min - 1)) with 1 by lia.
    change (round_half_even 1 1) with false. change (1 / 10 ^ 1) with 0.
    cbn [andb].
    destruct (Z.ltb_spec Etop exp_min) as [H|_]; [unfold Etop, Emax, prec in H; lia|].
    exists 0, exp_min. split; [reflexivity|]. split; [lia|]. split; [lia|].
    apply Z.pow_pos_nonneg; lia.
  - set (drop := exp_min - e).
    set (coeff := c / 10 ^ drop).
    assert (Hdrop : 0 < drop) by (unfold drop; lia).
    pose proof (pow10_pos drop ltac:(lia)) as Hpd.
    assert (Hc0 : 0 <= coeff) by (apply Z.div_pos; lia).
    assert (Hc1 : coeff < 10 ^ (n - drop)).
    { apply Z.div_lt_upper_bound; [exact Hpd|].
      assert (Hs : 10 ^ n = 10 ^ (n - drop) * 10 ^ drop)
        by (apply pow10_split; unfold drop; lia).
      rewrite Z.mul_comm, <- Hs. exact Hhi. }
    set (k := n - drop) in *.
    assert (Hk : 0 <= k) by (unfold k, drop; lia).
    assert (Hk2 : k + 1 <= -2 - (exp_min + 1)) by (unfold k, drop; lia).
    assert (Hdiv : 0 <= (coeff + 1) / 10 <= coeff + 1).
    { split; [apply Z.div_pos; lia|]. apply Z.div_le_upper_bound; lia. }
    destruct (round_half_even c drop); cbn [andb].
    + destruct (Z.ltb_spec prec (ndigits (coeff + 1))) as [Hp|Hp].
      * destruct (Z.ltb_spec Etop (exp_min + 1)) as [H|_];
          [unfold Etop, Emax, prec in H; lia|].
        eexists _, _. split; [reflexivity|]. split; [lia|]. split; [lia|].
        apply (pow10_twice _ k); lia.
      * destruct (Z.ltb_spec Etop exp_min) as [H|_];
          [unfold Etop, Emax, prec in H; lia|].
        eexists _, _. split; [reflexivity|]. split; [lia|]. split; [lia|].
        apply (pow10_twice _ k); lia.
    + destruct (Z.ltb_spec Etop exp_min) as [H|_];
        [unfold Etop, Emax, prec in H; lia|].
      eexists _, _. split; [reflexivity|]. split; [lia|]. split; [lia|].
      apply (pow10_twice _ k); lia.
Qed.

(** Such a number is quantized to 0.00. *)
Lemma quantize_tiny (s : bool) (c e : Z) :
  0 <= c -> e < -2 -> 2 * c < 10 ^ (-2 - e) ->
  quantize (mkDec s c e) (-2) ROUND_HALF_UP = Ok (mkDec s 0 (-2)).
Proof.
  intros Hc He Hs.
  destruct (Z.eq_dec c 0) as [->|Hne]; [reflexivity|].
  assert (Hpos : 0 < c) by lia.
  rewrite (quantize2_cases s c e Hpos).
  assert (Hk : half_up_coef c e (-2) = 0).
  { unfold half_up_coef. destruct (Z.leb_spec (-2) e) as [|_]; [lia|].
    apply Z.div_small. pose proof (pow10_pos (-2 - e) ltac:(lia)). lia. }
  rewrite Hk.
  assert (Hl : ndigits c <= -2 - e) by (apply ndigits_le; lia).
  destruct (Z.ltb_spec 28 (ndigits c + e + 2)) as [|_]; [lia|].
  change (28 <? ndigits 0) with false. reflexivity.
Qed.

(** The quotient of an integer below 10^27 by one of more than 999000
    digits: [div] returns a number below half a penny, without raising. *)
Lemma div_tiny (a b : Z) :
  0 < a < 10 ^ 27 -> 0 < b -> 999000 < ndigits b ->
  exists c e, div (of_int a) (of_int b) = Ok (mkDec false c e) /\
              0 <= c /\ e < -2 /\ 2 * c < 10 ^ (-2 - e).
Proof.
  intros Ha Hb Hnb.
  rewrite (of_int_pos a (proj1 Ha)), (of_int_pos b Hb).
  pose proof (div_unfold (mkDec false a 0) (mkDec false b 0) (proj1 Ha) Hb) as E.
  cbv zeta in E. cbn [dcoef dexp dsign xorb] in E. rewrite E. clear E.
  assert (Hna : ndigits a <= 27) by (apply ndigits_le; lia).
  destruct (div_scaled_bounds a b (proj1 Ha) Hb) as (HD & HN1 & HN2).
  set (N := div_num a b) in *. set (D := div_den a b) in *.
  assert (Hsh : 999000 <= div_shift a b) by (unfold div_shift, prec; lia).
  set (sh := div_shift a b) in *.
  replace (0 - 0 - sh) with (- sh) by lia.
  assert (Hq1 : 10 ^ 28 <= N / D) by (apply Z.div_le_lower_bound; lia).
  assert (Hq2 : N / D < 10 ^ 30) by (apply Z.div_lt_upper_bound; lia).
  set (q := N / D) in *.
  assert (H28 : 0 < 10 ^ 28) by (apply pow10_pos; lia).
  assert (H31 : 10 ^ 31 = 10 * 10 ^ 30) by (apply (pow10_succ 30); lia).
  destruct (N mod D =? 0); cbn [negb].
  - destruct (strip_zeros (Z.to_nat (0 - 0 - - sh)) q (- sh)) as [c' e'] eqn:Es.
    destruct (strip_zeros_spec _ q (- sh) c' e' ltac:(lia) Es) as (Hc' & He' & Hqc).
    apply fix_tiny; [exact Hc'|].
    assert (Hnq : ndigits q = ndigits c' + (e' - - sh))
      by (rewrite Hqc; apply ndigits_mul_pow10; lia).
    assert (ndigits q <= 30) by (apply ndigits_le; lia).
    lia.
  - apply fix_tiny.
    + destruct (q mod 5 =? 0); lia.
    + assert (ndigits (if q mod 5 =? 0 then q + 1 else q) <= 31)
        by (apply ndigits_le; [destruct (q mod 5 =? 0); lia|lia]).
      lia.
Qed.

Lemma dividend_yield_common_none (s : Stock) (p : Z) :
  class s = CommonStock -> last_dividend_pennies s = 0 -> 0 < p ->
  dividend_yield s p = Ok (mkDec false 0 (-2)).
Proof.
  intros Hc Hl Hp. unfold dividend_yield. rewrite Hc, Hl.
  destruct (Z.leb_spec p 0) as [|_]; [lia|].
  change (mul (of_int 0) (of_int 100)) with (Ok (mkDec false 0 0) : result Decimal).
  cbn [bind]. unfold quantize2, div. cbn [dsign dcoef dexp of_int].
  destruct (Z.eqb_spec (Z.abs p) 0) as [|_]; [lia|]. cbn [Z.eqb].
  destruct (Z.ltb_spec p 0) as [|_]; [lia|]. reflexivity.
Qed.

Lemma dividend_yield_common_normal (s : Stock) (p : Z) :
  class s = CommonStock ->
  0 < last_dividend_pennies s < 10 ^ 23 -> 0 < p -> ndigits p <= 999000 ->
  dividend_yield s p
  = Ok (mkDec false (half_up_div (last_dividend_pennies s * 10000) p) (-2)).
Proof.
  intros Hc Hl Hp Hlp. pow10_consts.
  assert (Hp23 : 10 ^ 23 = 100000000000000000000000) by reflexivity.
  unfold dividend_yield. rewrite Hc.
  destruct (Z.leb_spec p 0) as [|_]; [lia|].
  set (ld := last_dividend_pennies s) in *.
  rewrite (mul_int_exact ld 100 ltac:(lia) ltac:(lia) ltac:(lia)). cbn [bind].
  unfold quantize2.
  destruct (div_int_round (ld * 100) p 2 ltac:(lia) Hp ltac:(lia)
              ltac:(change (10 ^ 2) with 100; lia) Hlp)
    as (c & e & Ediv & Hcb & He & Hlen & HK).
  rewrite <- (of_int_pos (ld * 100) ltac:(lia)). rewrite Ediv. cbn [bind].
  cbn [Z.opp] in HK. rewrite quantize2_cases by lia. rewrite HK.
  change (10 ^ 2) with 100. replace (ld * 100 * 100) with (ld * 10000) by ring.
  pose proof (half_up_div_le (ld * 10000) p ltac:(lia) Hp) as HKb.
  assert (HlK : ndigits (half_up_div (ld * 10000) p) <= 28).
  { destruct (Z.eq_dec (half_up_div (ld * 10000) p) 0) as [->|];
      [vm_compute; intros X; discriminate X|].
    pose proof (ndigits_le (half_up_div (ld * 10000) p) 27 ltac:(lia) ltac:(lia)). lia. }
  destruct (Z.ltb_spec 28 (ndigits c + e + 2)); [lia|].
  destruct (Z.ltb_spec 28 (ndigits (half_up_div (ld * 10000) p))); [lia|].
  reflexivity.
Qed.

(** A price of more than 999000 digits: the quotient underflows, possibly
    to a subnormal or to zero, and the yield is 0.00, as the exact quotient
    rounds. *)
Lemma dividend_yield_common_huge (s : Stock) (p : Z) :
  class s = CommonStock ->
  0 < last_dividend_pennies s < 10 ^ 23 -> 0 < p -> 999000 < ndigits p ->
  dividend_yield s p
  = Ok (mkDec false (half_up_div (last_dividend_pennies s * 10000) p) (-2)).
Proof.
  intros Hc Hl Hp Hlp.
  assert (Hp23 : 10 ^ 23 = 100000000000000000000000) by reflexivity.
  assert (Hbig : 10 ^ 28 <= p).
  { destruct (ndigits_bounds p Hp) as (_ & Hlo & _).
    pose proof (pow10_le 28 (ndigits p - 1) ltac:(lia)). lia. }
  pow10_consts.
  unfold dividend_yield. rewrite Hc.
  destruct (Z.leb_spec p 0) as [|_]; [lia|].
  set (ld := last_dividend_pennies s) in *.
  rewrite (mul_int_exact ld 100 ltac:(lia) ltac:(lia) ltac:(lia)). cbn [bind].
  unfold quantize2.
  destruct (div_tiny (ld * 100) p ltac:(lia) Hp Hlp) as (c & e & Ediv & Hc0 & He & Hs).
  rewrite <- (of_int_pos (ld * 100) ltac:(lia)). rewrite Ediv. cbn [bind].
  rewrite (quantize_tiny false c e Hc0 He Hs).
  assert (HK : half_up_div (ld * 10000) p = 0)
    by (apply half_up_div_unique; lia).
  rewrite HK. reflexivity.
Qed.

(** X13.  For a common stock with a last dividend from 0 to below 10^23
    pennies and any positive price, [dividend_yield] is
    [last_dividend * 100 / price] rounded half-up to two fractional digits,
    as if computed exactly: its coefficient is
    [last_dividend * 10000 / price] rounded half-up to an integer.  Neither
    the 28-digit quotient in between nor its underflow at prices of a
    million digits changes the result. *)
Theorem dividend_yield_common (s : Stock) (p : Z) :
  class s = CommonStock ->
  0 <= last_dividend_pennies s < 10 ^ 23 -> 0 < p ->
  dividend_yield s p
  = Ok (mkDec false (half_up_div (last_dividend_pennies s * 10000) p) (-2)).
Proof.
  intros Hc Hl Hp.
  destruct (Z.eq_dec (last_dividend_pennies s) 0) as [E0|Hne].
  - rewrite (dividend_yield_common_none s p Hc E0 Hp). rewrite E0.
    replace (half_up_div (0 * 10000) p) with 0; [reflexivity|].
    symmetry. apply half_up_div_unique; lia.
  - assert (Hl' : 0 < last_dividend_pennies s < 10 ^ 23) by lia.
    destruct (Z_le_gt_dec (ndigits p) 999000) as [Hn|Hn].
    + exact (dividend_yield_common_normal s p Hc Hl' Hp Hn).
    + apply (dividend_yield_common_huge s p Hc Hl' Hp). lia.
Qed.

Lemma dividend_yield_common_witness :
  let POP := mkStock "POP" 10000 8 CommonStock [] in
  class POP = CommonStock /\ 0 <= last_dividend_pennies POP < 10 ^ 23 /\
  0 < 10000 /\
  dividend_yield POP 10000 = Ok (mkDec false 8 (-2)).
Proof.
  cbv zeta. split; [reflexivity|].
  split; [vm_compute; split; [intros X; discriminate X|reflexivity]|].
  split; [reflexivity|].
  refine (dividend_yield_common (mkStock "POP" 10000 8 CommonStock []) 10000 eq_refl _ _).
  - vm_compute; split; [intros X; discriminate X|reflexivity].
  - reflexivity.
Defined.

(** ** The registry of the exchange *)

Lemma dict_get_set_other (d : list (string * Stock)) (k k' : string) (v : Stock) :
  k' <> k -> dict_get (dict_set d k v) k' = dict_get d k'.
Proof.
  intros Hne. induction d as [|[k0 v0] d IH]; cbn [dict_set dict_get].
  - destruct (String.eqb_spec k' k); [contradiction|reflexivity].
  - destruct (String.eqb_spec k k0) as [->|Hk]; cbn [dict_get].
    + destruct (String.eqb_spec k' k0); [contradiction|reflexivity].
    + destruct (String.eqb k' k0); [reflexivity|exact IH].
Qed.

Lemma dict_get_none (d : list (string * Stock)) (k : string) :
  dict_get d k = None <-> ~ In k (map fst d).
Proof.
  induction d as [|[k0 v0] d IH]; cbn [dict_get map fst In].
  - tauto.
  - destruct (String.eqb_spec k k0) as [->|Hk].
    + split; [intros H; discriminate H|tauto].
    + rewrite IH. split; [intros H [E|E]; [congruence|tauto]|tauto].
Qed.

Lemma dict_get_in (d : list (string * Stock)) (k : string) (v : Stock) :
  dict_get d k = Some v -> In (k, v) d.
Proof.
  induction d as [|[k0 v0] d IH]; cbn [dict_get]; [intros H; discriminate H|].
  destruct (String.eqb_spec k k0) as [->|Hk].
  - intros H. injection H as <-. left. reflexivity.
  - intros H. right. exact (IH H).
Qed.

Lemma dict_get_nodup (d : list (string * Stock)) (k : string) (v : Stock) :
  NoDup (map fst d) -> In (k, v) d -> dict_get d k = Some v.
Proof.
  induction d as [|[k0 v0] d IH]; cbn [map fst]; [intros _ []|].
  intros Hnd [E|Hin]; cbn [dict_get].
  - injection E as -> ->. now rewrite String.eqb_refl.
  - inversion Hnd as [|? ? Hnot Hnd']; subst.
    destruct (String.eqb_spec k k0) as [->|Hk].
    + exfalso. apply Hnot. apply (in_map fst) in Hin. exact Hin.
    + exact (IH Hnd' Hin).
Qed.

Lemma dict_set_keys_present (d : list (string * Stock)) (k : string) (v : Stock) :
  In k (map fst d) -> map fst (dict_set d k v) = map fst d.
Proof.
  induction d as [|[k0 v0] d IH]; cbn [map fst dict_set]; [intros []|].
  destruct (String.eqb_spec k k0) as [->|Hk]; [reflexivity|].
  intros [E|Hin]; [congruence|]. cbn [map fst]. now rewrite IH.
Qed.

Lemma dict_set_in (d : list (string * Stock)) (k : string) (v : Stock)
    (k0 : string) (v0 : Stock) :
  NoDup (map fst d) -> In k (map fst d) -> In (k0, v0) (dict_set d k v) ->
  (k0 = k /\ v0 = v) \/ (k0 <> k /\ In (k0, v0) d).
Proof.
  induction d as [|[k1 v1] d IH]; cbn [map fst dict_set]; [intros _ []|].
  intros Hnd Hk Hin. inversion Hnd as [|? ? Hnot Hnd']; subst.
  destruct (String.eqb_spec k k1) as [->|Hne].
  - destruct Hin as [E|Hin].
    + injection E as <- <-. left. split; reflexivity.
    + right. split; [|right; exact Hin].
      intros ->. apply Hnot. apply (in_map fst) in Hin. exact Hin.
  - destruct Hk as [E|Hk]; [congruence|].
    destruct Hin as [E|Hin].
    + injection E as <- <-. right. split; [congruence|left; reflexivity].
    + destruct (IH Hnd' Hk Hin) as [H|[H1 H2]]; [left; exact H|right].
      split; [exact H1|right; exact H2].
Qed.

Lemma CommonStock_init_fields (k : string) (ld par : Z) (s : Stock) :
  CommonStock_init k ld par = Ok s -> symbol s = k /\ _trades s = [].
Proof.
  unfold CommonStock_init. destruct (Stock_init k par); [|intros E; discriminate E].
  cbn [bind]. destruct (ld <? 0); intros E; [discriminate E|].
  injection E as <-. split; reflexivity.
Qed.

Lemma PreferredStock_init_fields (k : string) (ld : Z) (pct : float) (par : Z) (s : Stock) :
  PreferredStock_init k ld pct par = Ok s -> symbol s = k /\ _trades s = [].
Proof.
  unfold PreferredStock_init. destruct (Stock_init k par); [|intros E; discriminate E].
  cbn [bind]. destruct (negb _); intros E; [discriminate E|].
  injection E as <-. split; reflexivity.
Qed.

Lemma CommonStock_init_raises (k : string) (ld par : Z) (e : exn) :
  CommonStock_init k ld par = Raise e -> e = ValueError.
Proof.
  unfold CommonStock_init. destruct (Stock_init_cases k par) as [E|E]; rewrite E; cbn [bind].
  - destruct (ld <? 0); intros H; [injection H as <-; reflexivity|discriminate H].
  - intros H. injection H as <-. reflexivity.
Qed.

Lemma PreferredStock_init_raises (k : string) (ld : Z) (pct : float) (par : Z) (e : exn) :
  PreferredStock_init k ld pct par = Raise e -> e = ValueError.
Proof.
  unfold PreferredStock_init. destruct (Stock_init_cases k par) as [E|E]; rewrite E; cbn [bind].
  - destruct (negb _); intros H; [injection H as <-; reflexivity|discriminate H].
  - intros H. injection H as <-. reflexivity.
Qed.

(** What a factory call does, in terms of the constructor's outcome [init]. *)
Lemma create_cases (ex : GlobalBeverageCorpExchange) (k : string) (init : result Stock)
    (r : result Stock * GlobalBeverageCorpExchange) :
  r = (if dict_contains (_stocks ex) k then (Raise ValueError, ex)
       else match init with
            | Raise e => (Raise e, ex)
            | Ok stock => (Ok stock, mkExchange (dict_set (_stocks ex) k stock))
            end) ->
  (In k (stock_symbols ex) /\ r = (Raise ValueError, ex)) \/
  (~ In k (stock_symbols ex) /\ exists e, init = Raise e /\ r = (Raise e, ex)) \/
  (~ In k (stock_symbols ex) /\ exists s, init = Ok s /\
     r = (Ok s, mkExchange (_stocks ex ++ [(k, s)]))).
Proof.
  intros ->. unfold dict_contains, stock_symbols.
  destruct (dict_get (_stocks ex) k) as [v|] eqn:E.
  - left. split; [|reflexivity].
    apply dict_get_in in E. apply (in_map fst) in E. exact E.
  - right. pose proof (proj1 (dict_get_none _ _) E) as Hnot.
    destruct init as [s|e]; [right|left]; (split; [exact Hnot|]).
    + exists s. split; [reflexivity|]. now rewrite (dict_set_fresh _ _ _ E).
    + exists e. split; reflexivity.
Qed.

Lemma get_stock_app_new (d : list (string * Stock)) (k : string) (s : Stock) :
  ~ In k (map fst d) ->
  dict_get (d ++ [(k, s)]) k = Some s /\
  (forall k', k' <> k -> dict_get (d ++ [(k, s)]) k' = dict_get d k').
Proof.
  intros Hnot. apply dict_get_none in Hnot.
  rewrite <- (dict_set_fresh d k s Hnot). split.
  - apply dict_get_set_same.
  - intros k' Hne. apply dict_get_set_other. exact Hne.
Qed.

(** X14.  When a factory method returns a stock, the stock has the requested
    symbol and an empty ledger, [get_stock] under that symbol returns it,
    the symbol is added at the end of [stock_symbols], and every other
    symbol looks up as before. *)
Theorem create_stock_registers (ex ex' : GlobalBeverageCorpExchange) (k : string)
    (ld par : Z) (pct : float) (s : Stock) :
  create_common_stock ex k ld par = (Ok s, ex') \/
  create_preferred_stock ex k ld pct par = (Ok s, ex') ->
  symbol s = k /\ _trades s = [] /\
  get_stock ex' k = Ok s /\
  stock_symbols ex' = stock_symbols ex ++ [k] /\
  (forall k', k' <> k -> get_stock ex' k' = get_stock ex k').
Proof.
  intros H.
  assert (Hgen : exists init, (init = Ok s -> symbol s = k /\ _trades s = []) /\
            (Ok s, ex') = (if dict_contains (_stocks ex) k then (Raise ValueError, ex)
               else match init with
                    | Raise e => (Raise e, ex)
                    | Ok stock => (Ok stock, mkExchange (dict_set (_stocks ex) k stock))
                    end)).
  { destruct H as [H|H]; rewrite <- H.
    - exists (CommonStock_init k ld par). split; [apply CommonStock_init_fields|reflexivity].
    - exists (PreferredStock_init k ld pct par).
      split; [apply PreferredStock_init_fields|reflexivity]. }
  destruct Hgen as (init & Hf & Hr).
  destruct (create_cases ex k init _ Hr)
    as [(_ & E) | [(_ & e & _ & E) | (Hnot & s0 & Ei & E)]]; try discriminate E.
  injection E as <- ->. destruct (Hf Ei) as [H1 H2].
  destruct (get_stock_app_new (_stocks ex) k s Hnot) as [G1 G2].
  split; [exact H1|]. split; [exact H2|]. unfold get_stock, stock_symbols. cbn [_stocks].
  split; [now rewrite G1|]. split; [now rewrite map_app|].
  intros k' Hne. now rewrite (G2 k' Hne).
Qed.

Lemma create_stock_registers_witness :
  let ex' := mkExchange [("TEA", TEA)] in
  (create_common_stock Exchange_init "TEA" 0 10000 = (Ok TEA, ex') \/
   create_preferred_stock Exchange_init "TEA" 0 rate_0_02 10000 = (Ok TEA, ex')) /\
  get_stock ex' "TEA" = Ok TEA /\ stock_symbols ex' = ["TEA"].
Proof.
  cbv zeta.
  assert (H : create_common_stock Exchange_init "TEA" 0 10000
              = (Ok TEA, mkExchange [("TEA", TEA)]) \/
              create_preferred_stock Exchange_init "TEA" 0 rate_0_02 10000
              = (Ok TEA, mkExchange [("TEA", TEA)])) by (left; reflexivity).
  split; [exact H|].
  destruct (create_stock_registers _ _ _ _ _ _ _ H) as (_ & _ & G & S & _).
  split; [exact G|exact S].
Defined.

(** X15.  A factory call that fails raises ValueError and leaves the
    exchange exactly as it was; it fails exactly when the symbol is already
    registered or the constructor rejects the arguments. *)
Theorem create_failure_atomic (ex : GlobalBeverageCorpExchange) (k : string)
    (ld par : Z) (pct : float) :
  let rc := create_common_stock ex k ld par in
  let rp := create_preferred_stock ex k ld pct par in
  (forall e, fst rc = Raise e -> e = ValueError /\ snd rc = ex) /\
  (forall e, fst rp = Raise e -> e = ValueError /\ snd rp = ex) /\
  ((exists e, fst rc = Raise e) <->
   In k (stock_symbols ex) \/ exists e, CommonStock_init k ld par = Raise e) /\
  ((exists e, fst rp = Raise e) <->
   In k (stock_symbols ex) \/ exists e, PreferredStock_init k ld pct par = Raise e).
Proof.
  cbv zeta.
  destruct (create_cases ex k (CommonStock_init k ld par)
              (create_common_stock ex k ld par) eq_refl)
    as [(Hin & E) | [(Hnot & e0 & Ei & E) | (Hnot & s0 & Ei & E)]];
  destruct (create_cases ex k (PreferredStock_init k ld pct par)
              (create_preferred_stock ex k ld pct par) eq_refl)
    as [(Hin' & E') | [(Hnot' & e0' & Ei' & E') | (Hnot' & s0' & Ei' & E')]];
  rewrite E, E'; cbn [fst snd]; try contradiction;
  repeat match goal with
  | |- _ /\ _ => split
  | |- forall e, Raise _ = Raise e -> _ =>
      let X := fresh in intros ? X; injection X as <-
  | |- forall e, Ok _ = Raise e -> _ => let X := fresh in intros ? X; discriminate X
  | |- ValueError = ValueError => reflexivity
  | |- ex = ex => reflexivity
  | |- ?e = ValueError =>
      first [exact (CommonStock_init_raises _ _ _ _ Ei)
            |exact (PreferredStock_init_raises _ _ _ _ _ Ei')]
  | |- (exists e, Raise ?x = Raise e) <-> _ =>
      split; [intros _; first [left; assumption|right; eexists; eassumption]
             |intros _; eexists; reflexivity]
  | |- (exists e, Ok _ = Raise e) <-> _ =>
      split; [intros (? & X); discriminate X
             |intros [X|(? & X)]; [contradiction|congruence]]
  end.
Qed.

(** X16.  [get_stock] returns a stock exactly for the symbols listed by
    [stock_symbols], and raises KeyError for every other one; on a new
    exchange it always raises KeyError. *)
Theorem get_stock_iff (ex : GlobalBeverageCorpExchange) (k : string) :
  ((exists s, get_stock ex k = Ok s) <-> In k (stock_symbols ex)) /\
  (forall e, get_stock ex k = Raise e -> e = KeyError) /\
  get_stock Exchange_init k = Raise KeyError.
Proof.
  unfold get_stock, stock_symbols. split; [|split; [|reflexivity]].
  - destruct (dict_get (_stocks ex) k) as [v|] eqn:E.
    + split; [intros _|intros _; eexists; reflexivity].
      apply dict_get_in in E. apply (in_map fst) in E. exact E.
    + apply dict_get_none in E. split; [intros (s & H); discriminate H|contradiction].
  - destruct (dict_get (_stocks ex) k); intros e H; [discriminate H|].
    injection H as <-. reflexivity.
Qed.

(** ** Exchanges the program can build *)

Lemma NoDup_snoc {A : Type} (l : list A) (a : A) :
  NoDup l -> ~ In a l -> NoDup (l ++ [a]).
Proof.
  induction 1 as [|x l Hx Hnd IH]; cbn [app]; intros Ha.
  - constructor; [intros []|constructor].
  - constructor.
    + intros Hin. apply in_app_or in Hin. destruct Hin as [Hin|[E|[]]]; [tauto|].
      apply Ha. left. symmetry. exact E.
    + apply IH. intros Hin. apply Ha. right. exact Hin.
Qed.

Lemma registry_ok_create (ex : GlobalBeverageCorpExchange) (k : string)
    (init : result Stock) (r : result Stock * GlobalBeverageCorpExchange) :
  registry_ok ex ->
  (forall s, init = Ok s -> symbol s = k /\ reachable_stock s) ->
  r = (if dict_contains (_stocks ex) k then (Raise ValueError, ex)
       else match init with
            | Raise e => (Raise e, ex)
            | Ok stock => (Ok stock, mkExchange (dict_set (_stocks ex) k stock))
            end) ->
  registry_ok (snd r).
Proof.
  intros [Hnd Hall] Hinit Hr.
  destruct (create_cases ex k init r Hr)
    as [(_ & E) | [(_ & e & _ & E) | (Hnot & s & Ei & E)]]; rewrite E; cbn [snd];
    try (split; assumption).
  split.
  - unfold stock_symbols. cbn [_stocks]. rewrite map_app. apply NoDup_snoc; assumption.
  - cbn [_stocks]. intros k0 s0 Hin. apply in_app_or in Hin.
    destruct Hin as [Hin|[E0|[]]]; [exact (Hall k0 s0 Hin)|].
    injection E0 as <- <-. exact (Hinit s Ei).
Qed.

Lemma reachable_exchange_registry (ex : GlobalBeverageCorpExchange) :
  reachable_exchange ex -> registry_ok ex.
Proof.
  induction 1 as [|ex k ld par _ IH|ex k ld pct par _ IH|ex k now q i p _ IH].
  - split; [constructor|intros k s []].
  - apply (registry_ok_create ex k (CommonStock_init k ld par)); [exact IH| |reflexivity].
    intros s E. split; [apply (CommonStock_init_fields k ld par s E)|].
    exact (reach_common k ld par s E).
  - apply (registry_ok_create ex k (PreferredStock_init k ld pct par));
      [exact IH| |reflexivity].
    intros s E. split; [apply (PreferredStock_init_fields k ld pct par s E)|].
    exact (reach_preferred k ld pct par s E).
  - unfold record_trade_on, get_stock.
    destruct (dict_get (_stocks ex) k) as [s|] eqn:E; [|exact IH].
    destruct IH as [Hnd Hall].
    pose proof (dict_get_in _ _ _ E) as Hin.
    assert (Hk : In k (map fst (_stocks ex))) by (apply (in_map fst) in Hin; exact Hin).
    pose proof (reach_trade now s q i p (proj2 (Hall k s Hin))) as Hreach.
    assert (Hsym : symbol (snd (record_trade now s q i p)) = k).
    { destruct (record_trade_stock now s q i p) as [(_ & E0) | (_ & _ & E0)];
        rewrite E0; exact (proj1 (Hall k s Hin)). }
    destruct (record_trade now s q i p) as [r s']. cbn [snd] in *.
    split.
    + unfold stock_symbols. cbn [_stocks]. rewrite dict_set_keys_present; assumption.
    + cbn [_stocks]. intros k0 s0 Hin0.
      destruct (dict_set_in _ _ _ _ _ Hnd Hk Hin0) as [[-> ->]|[_ Hold]].
      * split; assumption.
      * exact (Hall k0 s0 Hold).
Qed.

(** X17.  In every exchange built from an empty one by the factory methods
    and by trades recorded on the stocks that [get_stock] hands out, the
    symbols are pairwise distinct, each registered stock is the one
    [get_stock] returns for its key, carries that key as its symbol, and is
    a stock built by a constructor and traded through [record_trade]. *)
Theorem reachable_exchange_invariant (ex : GlobalBeverageCorpExchange) :
  reachable_exchange ex ->
  NoDup (stock_symbols ex) /\
  forall k s, In (k, s) (_stocks ex) ->
    get_stock ex k = Ok s /\ symbol s = k /\ reachable_stock s.
Proof.
  intros Hr. destruct (reachable_exchange_registry ex Hr) as [Hnd Hall].
  split; [exact Hnd|]. intros k s Hin. destruct (Hall k s Hin) as [H1 H2].
  split; [|split; assumption].
  unfold get_stock. now rewrite (dict_get_nodup _ _ _ Hnd Hin).
Qed.

Lemma sample_exchange_reachable : reachable_exchange sample_exchange.
Proof.
  unfold sample_exchange. apply reach_record. apply reach_create_preferred.
  apply reach_create_common. apply reach_init.
Qed.

Lemma reachable_exchange_invariant_witness :
  reachable_exchange sample_exchange /\ NoDup (stock_symbols sample_exchange).
Proof.
  split; [exact sample_exchange_reachable|].
  exact (proj1 (reachable_exchange_invariant sample_exchange sample_exchange_reachable)).
Defined.

(** ** The all-share index *)







Lemma vwsp_positive_ledger (now : Datetime.datetime) (s : Stock) (w : Z) (d : Decimal) :
  ledger_ok (_trades s) ->
  volume_weighted_stock_price now s w = Ok (Some d) ->
  dsign d = false /\ dexp d = -2 /\ 1 <= dcoef d.
Proof.
  intros Hok H. unfold volume_weighted_stock_price in H.
  destruct (Datetime.minus_minutes now w) as [cutoff|e]; [|discriminate H].
  cbn [bind] in H.
  apply (vwap_of_recent_positive (recent_trades cutoff (_trades s))); [|exact H].
  apply ledger_ok_filter. exact Hok.
Qed.

Lemma all_vwsp_prices (clock : nat -> Datetime.datetime) (d : list (string * Stock)) :
  forall i vs,
  (forall k s, In (k, s) d -> ledger_ok (_trades s)) ->
  all_vwsp clock i d = Ok vs -> Forall a_price vs.
Proof.
  induction d as [|[k s] d IH]; intros i vs Hok H; cbn [all_vwsp] in H.
  - injection H as <-. constructor.
  - destruct (volume_weighted_stock_price (clock i) s 5) as [v|e] eqn:Ev;
      [|discriminate H].
    cbn [bind] in H.
    destruct (all_vwsp clock (S i) d) as [vs'|e] eqn:Evs; [|discriminate H].
    cbn [bind] in H. injection H as <-. constructor.
    + intros x ->. apply (vwsp_positive_ledger (clock i) s 5 x); [|exact Ev].
      apply (Hok k s). left. reflexivity.
    + apply (IH (S i) vs'); [|exact Evs].
      intros k' s' Hin. apply (Hok k' s'). right. exact Hin.
Qed.

Lemma floats_agree (rt : FloatRuntime) (vs : list (option Decimal)) :
  float_positive rt -> Forall a_price vs ->
  filter (fun v => SFltb float_zero v) (map (float_or_0 rt) vs)
  = StockMarket.defined_floats rt vs.
Proof.
  intros Hrt. induction 1 as [|v vs Hv _ IH]; [reflexivity|].
  cbn [map filter StockMarket.defined_floats].
  destruct v as [x|].
  - destruct (Hv x eq_refl) as (Hs & He & Hc).
    destruct x as [sx cx ex0]. cbn [dsign dexp dcoef] in Hs, He, Hc. subst sx ex0.
    assert (Hpos : 0 < cx) by lia.
    cbn [float_or_0]. unfold truthy. cbn [dcoef].
    destruct (Z.eqb_spec cx 0) as [|_]; [lia|]. cbn [negb].
    rewrite (Hrt cx Hpos). rewrite IH. reflexivity.
  - cbn [float_or_0]. change (SFltb float_zero float_zero) with false. exact IH.
Qed.

(** X19.  On every exchange the program can build, the index of the package
    (which drops prices that are absent or not positive) and the index of
    [stock_market.py] (which drops only the absent ones) give the same
    result, for every clock and every float runtime in which a positive
    amount becomes a positive float: a price that is present is positive. *)
Theorem index_variants_agree (rt : FloatRuntime) (clock : nat -> Datetime.datetime)
    (ex : GlobalBeverageCorpExchange) :
  float_positive rt -> reachable_exchange ex ->
  StockMarket.gbce_all_share_index rt clock ex = gbce_all_share_index rt clock ex.
Proof.
  intros Hrt Hr. destruct (reachable_exchange_registry ex Hr) as [_ Hall].
  unfold gbce_all_share_index, StockMarket.gbce_all_share_index.
  destruct (all_vwsp clock 0 (_stocks ex)) as [vs|e] eqn:E; [|reflexivity].
  cbn [bind].
  rewrite (floats_agree rt vs Hrt); [reflexivity|].
  apply (all_vwsp_prices clock (_stocks ex) 0 vs); [|exact E].
  intros k s Hin. apply reachable_stock_ledger. exact (proj2 (Hall k s Hin)).
Qed.

Lemma sign_runtime_positive : float_positive sign_runtime.
Proof.
  intros c Hc. cbn [sign_runtime float_of_Decimal dcoef dsign].
  destruct (Z.eqb_spec c 0) as [|_]; [lia|reflexivity].
Qed.

Lemma index_variants_agree_witness :
  float_positive sign_runtime /\ reachable_exchange sample_exchange /\
  StockMarket.gbce_all_share_index sign_runtime (fun _ => sample_now + 2000) sample_exchange
  = gbce_all_share_index sign_runtime (fun _ => sample_now + 2000) sample_exchange.
Proof.
  split; [exact sign_runtime_positive|]. split; [exact sample_exchange_reachable|].
  exact (index_variants_agree sign_runtime (fun _ => sample_now + 2000) sample_exchange
           sign_runtime_positive sample_exchange_reachable).
Defined.

(** ** The single-file variant *)

(** X20.  [stock_market.py]'s [record_trade], which validates in
    [_validate_trade_params], has the outcome and the effect of the
    package's on every input; and [trade_count] grows by one exactly when
    the quantity and the price are positive, also when the call then fails
    in its log line. *)
Theorem stock_market_record_trade (now : Datetime.datetime) (s : Stock) (q : Z)
    (i : TradeIndicator) (p : Z) :
  StockMarket.record_trade now s q i p = record_trade now s q i p /\
  StockMarket.trade_count (snd (StockMarket.record_trade now s q i p))
  = StockMarket.trade_count s + (if (0 <? q) && (0 <? p) then 1 else 0).
Proof.
  assert (E : StockMarket.record_trade now s q i p = record_trade now s q i p).
  { unfold StockMarket.record_trade, StockMarket._validate_trade_params, record_trade.
    destruct (q <=? 0); [reflexivity|]. destruct (p <=? 0); reflexivity. }
  split; [exact E|]. rewrite E. unfold StockMarket.trade_count.
  destruct (record_trade_stock now s q i p) as [(H & E0) | (Hq & Hp & E0)]; rewrite E0.
  - destruct (Z.ltb_spec 0 q); destruct (Z.ltb_spec 0 p); cbn [andb]; lia.
  - unfold appended, with_trades. cbn [_trades]. rewrite length_app. cbn [List.length].
    destruct (Z.ltb_spec 0 q); destruct (Z.ltb_spec 0 p); cbn [andb]; lia.
Qed.

Lemma SFcompare_finite_antisym (m1 : positive) (e1 : Z) (m2 : positive) (e2 : Z) :
  SFltb (S754_finite false m2 e2) (S754_finite false m1 e1)
  = negb (SFleb (S754_finite false m1 e1) (S754_finite false m2 e2)).
Proof.
  unfold SFltb, SFleb. cbn [SFcompare].
  rewrite (Z.compare_antisym e1 e2).
  destruct (e1 ?= e2); cbn [CompOpp]; try reflexivity.
  change (Pos.compare_cont Eq m2 m1) with (m2 ?= m1)%positive.
  change (Pos.compare_cont Eq m1 m2) with (m1 ?= m2)%positive.
  rewrite (Pos.compare_antisym m1 m2).
  destruct (m1 ?= m2)%positive; reflexivity.
Qed.

Lemma rate_checks_agree (pct : float) :
  pct <> S754_nan ->
  SFleb pct float_zero || SFltb float_one pct
  = negb (SFltb float_zero pct && SFleb pct float_one).
Proof.
  intros Hn. destruct pct as [s|s| |s m e]; [reflexivity| |contradiction|].
  - destruct s; reflexivity.
  - destruct s; [reflexivity|].
    change (SFleb (S754_finite false m e) float_zero) with false.
    change (SFltb float_zero (S754_finite false m e)) with true.
    cbn [orb andb]. unfold float_one. apply SFcompare_finite_antisym.
Qed.

(** X21.  The two constructors of a preferred stock accept and reject the
    same arguments except for a rate that is NaN: [stock_market.py] tests
    [rate <= 0 or rate > 1.0], which is false on NaN, and builds the stock;
    the package tests [not 0 < rate <= 1.0] and raises ValueError. *)
Theorem PreferredStock_init_variants (sym : string) (ld : Z) (pct : float) (par : Z) :
  (pct <> S754_nan ->
   StockMarket.PreferredStock_init sym ld pct par = PreferredStock_init sym ld pct par) /\
  (Stock_init sym par = Ok tt ->
   StockMarket.PreferredStock_init sym ld S754_nan par
   = Ok (mkStock sym par ld (PreferredStock S754_nan) []) /\
   PreferredStock_init sym ld S754_nan par = Raise ValueError).
Proof.
  unfold StockMarket.PreferredStock_init, PreferredStock_init. split.
  - intros Hn. rewrite (rate_checks_agree pct Hn). reflexivity.
  - intros E. rewrite E. cbn [bind]. split; reflexivity.
Qed.
